(** * POCS scheduler: the [Target] class of [panoptes/scheduler/target.py]

    A shallow embedding of [Target]: its constructor, the visit sequencer
    ([get_visit_iter], [get_visit], [reset_visits]), the reference-frame
    tracker ([reference_image], [get_image_offset]) and the duration
    estimator ([estimate_visit_duration]).

    Python objects that are shared and mutated (the [Observation]s held in
    [self.visit]) live in the [visit] list of the state; a reference to one
    of them ([self.current_visit]) is its index in that list.  Methods that
    can raise return a [result]; the state reached when the exception leaves
    the method is returned next to it. *)

From stdpp Require Import base option list strings gmap.
From Stdlib Require Import ZArith Lia Ascii.

Open Scope Z_scope.

(** ** Exceptions and results *)

(** The exception classes that occur in [target.py] or in the contracts of
    its collaborators.  All of them derive from [Exception]. *)
Inductive exn : Set :=
  | AssertionError
  | IndexError
  | KeyError
  | AttributeError
  | TypeError
  | ValueError
  | NameResolveError
  | OSError
  | PanError
  | ConfigurationError
  | StopIteration.

#[global] Instance exn_eq_dec : EqDecision exn.
Proof. solve_decision. Defined.

Inductive result (A : Type) : Type :=
  | Ok (a : A)
  | Raise (e : exn).
Arguments Ok {A} a.
Arguments Raise {A} e.

#[global] Instance result_ret : MRet result := fun A a => Ok a.
#[global] Instance result_bind : MBind result := fun A B f r =>
  match r with
  | Ok a => f a
  | Raise e => Raise e
  end.

(** [try: r except cls: h]: the handler runs on the exceptions [catches]
    accepts, the others propagate. *)
Definition try_except {A} (r : result A) (catches : exn → bool)
    (h : exn → result A) : result A :=
  match r with
  | Ok a => Ok a
  | Raise e => if catches e then h e else Raise e
  end.

(** [except Exception] and the bare [except:] accept every class of [exn]. *)
Definition any_Exception (e : exn) : bool := true.
Definition only (c : exn) (e : exn) : bool := bool_decide (e = c).

(** [l[i]] on a Python list, for [i >= 0]. *)
Definition index {A} (l : list A) (i : nat) : result A :=
  match l !! i with
  | Some x => Ok x
  | None => Raise IndexError
  end.

(** ** Data model *)

(** Values stored in an image record: file names and the plate-solve
    information (a dictionary of header values). *)
Inductive pyval : Type :=
  | PStr (s : string)
  | PNum (z : Z)
  | PDict (d : gmap string Z).

#[global] Instance pyval_eq_dec : EqDecision pyval.
Proof. solve_decision. Defined.

(** An image record is a [dict] with the keys ['fits_file'], ['img_file']
    and ['solved']. *)
Abbreviation Image := (gmap string pyval).

(** Offset information, as returned by [images.solve_offset] and
    [images.measure_offset]; [{}] is [∅]. *)
Abbreviation OffsetInfo := (gmap string Z).

(** Pixel data of an image file. *)
Abbreviation pixels := (list (list Z)).

(** [dict.get(key, default)] *)
Definition dict_get {V} (d : gmap string V) (k : string) (dflt : V) : V :=
  default dflt (d !! k).

(** An insertion-ordered dictionary ([Exposure.images]): camera identifier
    to image record, oldest entry first.  The keys of a [dict] are
    distinct. *)
Abbreviation odict V := (list (string * V)).

Definition od_keys {V} (d : odict V) : list string := d.*1.
Definition od_values {V} (d : odict V) : list V := d.*2.
Fixpoint od_lookup {V} (k : string) (d : odict V) : option V :=
  match d with
  | [] => None
  | (k', v) :: d' => if decide (k' = k) then Some v else od_lookup k d'
  end.
(** [d[k]] *)
Definition od_item {V} (d : odict V) (k : string) : result V :=
  match od_lookup k d with
  | Some v => Ok v
  | None => Raise KeyError
  end.
(** [l[-1]] *)
Definition index_last {A} (l : list A) : result A :=
  match last l with
  | Some x => Ok x
  | None => Raise IndexError
  end.

Record Exposure : Type := mkExposure {
  images : odict Image
}.

(** A visit.  [complete] is the value of its [complete] property. *)
Record Observation : Type := mkObservation {
  exposures : list Exposure;
  complete : bool
}.

(** Values of a target configuration. *)
Abbreviation obs_config := (gmap string Z).

Inductive cfgval : Type :=
  | CStr (s : string)
  | CNum (z : Z)
  | CList (l : list obs_config).

#[global] Instance cfgval_eq_dec : EqDecision cfgval.
Proof. solve_decision. Defined.

Abbreviation target_config := (gmap string cfgval).

(** A sky coordinate: right ascension and declination. *)
Abbreviation SkyCoord := (Z * Z)%type.

Record Target : Type := mkTarget {
  name : string;
  coord : SkyCoord;
  equinox : cfgval;
  epoch : cfgval;
  priority : cfgval;
  proper_motion : string * string;
  (** [self.visit]: the visits, in specification order *)
  visit : list Observation;
  (** [self.visits]: the generator made by [get_visit_iter()], as the number
      of visits it has yielded *)
  visits : nat;
  (** [self.current_visit]: [None] or a reference to an element of [visit] *)
  current_visit : option nat;
  _done_visiting : bool;
  _visit_num : nat;
  (** [self._reference_image]: [None] or an image record.  Image records
      do not change once they are recorded, so the reference to one is
      kept as its value. *)
  _reference_image : option Image;
  _offset_info : OffsetInfo
}.

Definition set_visit (l : list Observation) (t : Target) : Target :=
  mkTarget (name t) (coord t) (equinox t) (epoch t) (priority t)
    (proper_motion t) l (visits t) (current_visit t) (_done_visiting t)
    (_visit_num t) (_reference_image t) (_offset_info t).
Definition set_visits (g : nat) (t : Target) : Target :=
  mkTarget (name t) (coord t) (equinox t) (epoch t) (priority t)
    (proper_motion t) (visit t) g (current_visit t) (_done_visiting t)
    (_visit_num t) (_reference_image t) (_offset_info t).
Definition set_current_visit (c : option nat) (t : Target) : Target :=
  mkTarget (name t) (coord t) (equinox t) (epoch t) (priority t)
    (proper_motion t) (visit t) (visits t) c (_done_visiting t)
    (_visit_num t) (_reference_image t) (_offset_info t).
Definition set_done_visiting (b : bool) (t : Target) : Target :=
  mkTarget (name t) (coord t) (equinox t) (epoch t) (priority t)
    (proper_motion t) (visit t) (visits t) (current_visit t) b
    (_visit_num t) (_reference_image t) (_offset_info t).
Definition set_visit_num (n : nat) (t : Target) : Target :=
  mkTarget (name t) (coord t) (equinox t) (epoch t) (priority t)
    (proper_motion t) (visit t) (visits t) (current_visit t)
    (_done_visiting t) n (_reference_image t) (_offset_info t).
Definition set_reference_image (r : option Image) (t : Target) : Target :=
  mkTarget (name t) (coord t) (equinox t) (epoch t) (priority t)
    (proper_motion t) (visit t) (visits t) (current_visit t)
    (_done_visiting t) (_visit_num t) r (_offset_info t).
Definition set_offset_info (o : OffsetInfo) (t : Target) : Target :=
  mkTarget (name t) (coord t) (equinox t) (epoch t) (priority t)
    (proper_motion t) (visit t) (visits t) (current_visit t)
    (_done_visiting t) (_visit_num t) (_reference_image t) o.

(** ** Collaborators

    Code that [target.py] calls and that lives outside it: the
    [Observation] and [Exposure] classes, [utils.images], and the
    coordinate resolver and parser of [astropy]. *)
Class Collaborators : Type := {
  (** [Observation(od, cameras=cameras)] *)
  new_observation : obs_config → Observation;
  (** [visit.reset_exposures()], as its effect on the visit *)
  reset_exposures : Observation → Observation;
  (** truth value of an [Exposure] object ([if first_exp:]) *)
  exposure_bool : Exposure → bool;
  (** [images.solve_offset(first_dict, second_dict)] *)
  solve_offset : pyval → pyval → result OffsetInfo;
  (** [images.read_image_data(fname)]; [fname] may be [None] *)
  read_image_data : option pyval → result (option pixels);
  (** [images.measure_offset(d1, d2, info)] *)
  measure_offset : pixels → pixels → pyval → result OffsetInfo;
  (** [SkyCoord.from_name(name)] *)
  from_name : string → result SkyCoord;
  (** [SkyCoord(position, frame=frame)] *)
  sky_coord : cfgval → cfgval → result SkyCoord
}.

(** [c] with other offset routines: the collaborators that
    [get_image_offset] computes offsets with are replaced, the rest is
    kept. *)
Definition with_offset_routines (c : Collaborators)
    (so : pyval → pyval → result OffsetInfo)
    (rd : option pyval → result (option pixels))
    (mo : pixels → pixels → pyval → result OffsetInfo) : Collaborators := {|
  new_observation := @new_observation c;
  reset_exposures := @reset_exposures c;
  exposure_bool := @exposure_bool c;
  solve_offset := so;
  read_image_data := rd;
  measure_offset := mo;
  from_name := @from_name c;
  sky_coord := @sky_coord c
|}.

(** ** Visit sequencer *)

Section Sequencer.
Context {collab : Collaborators}.

(** One [next()] on a generator made by [get_visit_iter()] that has
    yielded [g] visits so far: the loop body up to [yield visit], or the
    end of the loop ([None], the generator raises [StopIteration]).
    Returns the yielded visit, the generator after the step and the
    state. *)
Definition get_visit_iter_next (g : nat) (t : Target)
    : option nat * nat * Target :=
  match visit t !! g with
  | Some _ =>
      let num := g in
      let t := set_visit_num num t in
      let t := set_current_visit (Some g) t in
      let t :=
        if (Z.of_nat num =? Z.of_nat (length (visit t)) - 1)
        then set_done_visiting true t
        else t in
      (Some g, S g, t)
  | None => (None, g, t)
  end.

(** [visit.complete] through a reference.  A reference held in
    [current_visit] is always in range ([lemma current_visit_in_range]
    below); out of range the value is immaterial. *)
Definition visit_complete (t : Target) (i : nat) : bool :=
  match visit t !! i with
  | Some o => complete o
  | None => false
  end.

Definition get_visit (t : Target) : result nat * Target :=
  let advance :=
    match get_visit_iter_next (visits t) t with
    | (Some v, g, t') => (Ok v, set_visits g t')
    | (None, g, t') => (Raise StopIteration, set_visits g t')
    end in
  match current_visit t with
  | None => advance
  | Some v => if visit_complete t v then advance else (Ok v, t)
  end.

(** [visit.reset_exposures()] on the visit referenced by [i]. *)
Definition reset_exposures_at (i : nat) (t : Target) : Target :=
  set_visit (alter reset_exposures i (visit t)) t.

(** The [for visit in self.get_visit_iter()] loop of [reset_visits], from
    a generator that has yielded [g] visits; [fuel] bounds the number of
    iterations. *)
Fixpoint reset_loop (fuel : nat) (g : nat) (t : Target) : Target :=
  match fuel with
  | O => t
  | S fuel' =>
      match get_visit_iter_next g t with
      | (Some v, g', t') => reset_loop fuel' g' (reset_exposures_at v t')
      | (None, _, t') => t'
      end
  end.

Definition reset_visits (t : Target) : Target :=
  let t := reset_loop (S (length (visit t))) 0%nat t in
  let t := set_visits 0%nat t in
  let t := set_current_visit None t in
  set_done_visiting false t.

Definition visit_num (t : Target) : nat := _visit_num t.
Definition done_visiting (t : Target) : bool := _done_visiting t.

End Sequencer.

(** ** Reference-frame tracker *)

Section Tracker.
Context {collab : Collaborators}.

(** The body of the [try] in the [reference_image] property. *)
Definition reference_image_try (t : Target) : result Target :=
  first_visit ← index (visit t) 0;
  first_exp ← index (exposures first_visit) 0;
  if exposure_bool first_exp then
    img ← index (od_values (images first_exp)) 0;
    mret (set_reference_image (Some img) t)
  else mret t.

(** The [reference_image] property: the value read and the state after
    the read. *)
Definition reference_image (t : Target) : option Image * Target :=
  let t :=
    match _reference_image t with
    | None =>
        match reference_image_try t with
        | Ok t' => t'
        | Raise _ => t   (* except Exception: logged *)
        end
    | Some _ => t
    end in
  (_reference_image t, t).

(** [img.get('fits_file', img.get('img_file', None))] *)
Definition file_name (img : Image) : option pyval :=
  match img !! "fits_file"%string with
  | Some f => Some f
  | None => img !! "img_file"%string
  end.

(** [img.get('solved', {})] *)
Definition solved (img : Image) : pyval :=
  dict_get img "solved" (PDict ∅).

(** [exposure.images[list(exposure.images)[-1]]] *)
Definition last_image (exposure : Exposure) : result Image :=
  k ← index_last (od_keys (images exposure));
  od_item (images exposure) k.

(** Tier 1: the body of the outer [try]. *)
Definition plate_solve (reference_image last_image : Image)
    : result OffsetInfo :=
  solve_offset (solved reference_image) (solved last_image).

(** Tier 2: the body of the inner [try].  The [raise] statement names
    [error.PanError]; whatever it raises is an [Exception]. *)
Definition phase_translation (reference_image : Image)
    (ref_img last_img : option pyval) : result OffsetInfo :=
  let info := solved reference_image in
  d1 ← read_image_data ref_img;
  d2 ← read_image_data last_img;
  match d1, d2 with
  | Some d1, Some d2 => measure_offset d1 d2 info
  | _, _ => Raise PanError
  end.

Definition get_image_offset (exposure : Exposure) (t : Target)
    : result OffsetInfo * Target :=
  let '(reference_image, t) := reference_image t in
  match reference_image with
  | Some reference_image =>
      match last_image exposure with
      | Raise e => (Raise e, t)
      | Ok last_image =>
          let ref_img := file_name reference_image in
          let last_img := file_name last_image in
          if decide (ref_img = last_img) then (Ok (_offset_info t), t)
          else
            match plate_solve reference_image last_image with
            | Ok off =>
                let t := set_offset_info off t in (Ok (_offset_info t), t)
            | Raise e =>
                if only AssertionError e then
                  match phase_translation reference_image ref_img last_img with
                  | Ok off =>
                      let t := set_offset_info off t in
                      (Ok (_offset_info t), t)
                  | Raise _ =>   (* except Exception: logged *)
                      (Ok (_offset_info t), t)
                  end
                else (Raise e, t)
            end
      end
  | None => (Ok (_offset_info t), t)
  end.

End Tracker.

(** ** Duration estimator *)

(** Time quantities ([astropy.units.Quantity] in seconds): a zero and an
    addition that form a monoid. *)
Class Quantity (Q : Type) : Type := {
  q_zero : Q;
  q_add : Q → Q → Q;
  q_add_0_l : ∀ x, q_add q_zero x = x;
  q_add_0_r : ∀ x, q_add x q_zero = x;
  q_add_assoc : ∀ x y z, q_add x (q_add y z) = q_add (q_add x y) z
}.

#[global, refine] Instance Z_seconds : Quantity Z :=
  {| q_zero := 0; q_add := Z.add |}.
Proof. all: intros; lia. Defined.

Section Duration.
Context {Q : Type} `{Quantity Q}.
(** [obs.estimate_duration()] *)
Variable estimate_duration : Observation → Q.

(** The loop of [estimate_visit_duration] over a list of visits. *)
Definition sum_durations (overhead : Q) (l : list Observation) : Q :=
  fold_left
    (fun duration obs => q_add duration (q_add (estimate_duration obs) overhead))
    l q_zero.

(** The value returned and the state after the call. *)
Definition estimate_visit_duration (overhead : Q) (t : Target) : Q * Target :=
  let duration := sum_durations overhead (visit t) in
  (duration, t).

End Duration.

(** ** Construction *)

(** [str.isspace] on the ASCII range. *)
Definition py_is_space (a : Ascii.ascii) : bool :=
  match a with
  | "009" | "010" | "011" | "012" | "013"
  | "028" | "029" | "030" | "031" | " " => true
  | _ => false
  end%char.

(** [str.split()]: [cur] is the current field, reversed. *)
Fixpoint split_go (cur : string) (s : string) : list string :=
  let flush := if decide (cur = ""%string) then [] else [String.rev cur] in
  match s with
  | String.EmptyString => flush
  | String.String a s' =>
      if py_is_space a then flush ++ split_go "" s'
      else split_go (String.String a cur) s'
  end.
Definition py_split (s : string) : list string := split_go "" s.

Definition py_assert (b : bool) : result unit :=
  if b then Ok () else Raise AssertionError.

(** [d[k]] on a [dict] *)
Definition dict_item {V} (d : gmap string V) (k : string) : result V :=
  match d !! k with
  | Some v => Ok v
  | None => Raise KeyError
  end.

Definition is_str (v : cfgval) : bool :=
  match v with CStr _ => true | _ => false end.

Section Construction.
Context {collab : Collaborators}.

(** The [try]/[except] that resolves the coordinates of the target. *)
Definition resolve_coord (target_config : target_config) (name : string)
    : result SkyCoord :=
  try_except (from_name name) any_Exception (fun _ =>
    position ← dict_item target_config "position";
    sky_coord position (dict_get target_config "frame" (CStr "icrs"))).

(** [target_config.get('proper_motion', '0.0 0.0').split()] and the pair
    built from its first two fields. *)
Definition parse_proper_motion (target_config : target_config)
    : result (string * string) :=
  match dict_get target_config "proper_motion" (CStr "0.0 0.0") with
  | CStr s =>
      let proper_motion := py_split s in
      a ← index proper_motion 0;
      b ← index proper_motion 1;
      mret (a, b)
  | _ => Raise AttributeError
  end.

(** The list comprehension over [target_config.get('visit', [{}])].  A
    value that is not a list of visit specifications is not iterated. *)
Definition make_visits (target_config : target_config)
    : result (list Observation) :=
  match dict_get target_config "visit" (CList [∅]) with
  | CList l => Ok (new_observation <$> l)
  | _ => Raise TypeError
  end.

(** [Target.__init__(target_config)]: the new object, or the exception
    that leaves the constructor.  [load_config], [get_logger] and the
    constructor of [FixedTarget], which stores [name] and [coord], have no
    part in what follows and are left out, as is the logging throughout. *)
Definition Target_init (target_config : target_config) : result Target :=
  _ ← py_assert (bool_decide (is_Some (target_config !! "name"%string)));
  _ ← py_assert (bool_decide (is_Some (target_config !! "position"%string)));
  n ← dict_item target_config "name";
  match n with
  | CStr name =>
      sky_coord ← resolve_coord target_config name;
      let equinox := dict_get target_config "equinox" (CStr "2000") in
      let epoch := dict_get target_config "epoch" (CNum 2000) in
      let priority := dict_get target_config "priority" (CNum 1) in
      proper_motion ← parse_proper_motion target_config;
      visit ← make_visits target_config;
      (* the sequencing attributes do not exist yet; [reset_visits]
         assigns them before anything reads them *)
      let t := mkTarget name sky_coord equinox epoch priority proper_motion
                 visit 0%nat None false 0%nat None ∅ in
      let t := reset_visits t in
      let t := set_reference_image None t in
      let t := set_offset_info ∅ t in
      let t := set_current_visit None t in
      let t := set_done_visiting false t in
      let t := set_visit_num 0%nat t in
      Ok t
  | _ => Raise AssertionError   (* assert isinstance(..., str) *)
  end.

End Construction.

(** ** The life of a Target

    What can happen to a constructed [Target]: a call of one of its methods,
    a read of one of its properties, or the outer observing loop and the
    camera working on the visits.  The latter mutate the [Observation]
    objects in place; they neither add nor remove visits and do not touch
    the sequencing and tracking attributes. *)

Section Life.
Context {collab : Collaborators}.

Inductive step : Target → Target → Prop :=
  | step_get_visit t : step t (get_visit t).2
  | step_reset_visits t : step t (reset_visits t)
  | step_reference_image t : step t (reference_image t).2
  | step_get_image_offset exposure t :
      step t (get_image_offset exposure t).2
  | step_observe l t :
      length l = length (visit t) → step t (set_visit l t).

Definition reachable (t : Target) : Prop :=
  ∃ target_config t0, Target_init target_config = Ok t0 ∧ rtc step t0 t.

(** The state in which the loop of [reset_visits] ends when it is entered
    with a generator that has yielded [g] visits. *)
Definition reset_loop_end (g : nat) (t : Target) : Target :=
  if decide (g < length (visit t))%nat then
    mkTarget (name t) (coord t) (equinox t) (epoch t) (priority t)
      (proper_motion t)
      (take g (visit t) ++ (reset_exposures <$> drop g (visit t)))
      (visits t) (Some (length (visit t) - 1)%nat) true
      (length (visit t) - 1)%nat (_reference_image t) (_offset_info t)
  else t.

(** The condition [visit is None or visit.complete] of [get_visit]. *)
Definition wants_next (t : Target) : bool :=
  match current_visit t with
  | None => true
  | Some v => visit_complete t v
  end.

(** The sequencing attributes, as one value. *)
Definition sequencer (t : Target) : nat * option nat * bool * nat :=
  (visits t, current_visit t, _done_visiting t, _visit_num t).

(** Executing the visit referenced by [v]; [finish] is what the execution
    does to it. *)
Definition run_visit (finish : Observation → Observation) (v : nat)
    (t : Target) : Target :=
  set_visit (alter finish v (visit t)) t.

(** The observing loop, [n] rounds: fetch a visit with [get_visit], read
    [done_visiting], run the visit to completion.  Returns what each
    round fetched and read. *)
Fixpoint observe (finish : Observation → Observation) (n : nat)
    (t : Target) : list (result nat * bool) * Target :=
  match n with
  | O => ([], t)
  | S n' =>
      let '(r, t) := get_visit t in
      let flag := done_visiting t in
      let t := match r with
               | Ok v => run_visit finish v t
               | Raise _ => t
               end in
      let '(rs, t) := observe finish n' t in
      ((r, flag) :: rs, t)
  end.

(** The first image of the first exposure of the first visit, if there is
    one (the words of the specification for what [reference_image]
    reads). *)
Definition spec_first_image (t : Target) : option Image :=
  first_visit ← visit t !! 0%nat;
  first_exp ← exposures first_visit !! 0%nat;
  if exposure_bool first_exp then od_values (images first_exp) !! 0%nat
  else None.

(** The invariant of the sequencer: the generator in [visits] has yielded
    the visits up to the current one, and the exhaustion flag is set
    exactly when the current visit is the last one. *)
Definition sequencer_inv (t : Target) : Prop :=
  match current_visit t with
  | None => visits t = 0%nat ∧ _done_visiting t = false
  | Some v =>
      visits t = S v ∧ (v < length (visit t))%nat ∧
      _done_visiting t = bool_decide (S v = length (visit t))
  end.

(** The well-formedness of the optional entries of a configuration that
    the constructor reads after it has resolved the coordinates:
    [proper_motion] is a "dRA dDec" pair and [visit] a list of visit
    specifications. *)
Definition optional_entries_ok (target_config : target_config) : Prop :=
  (∃ pm, parse_proper_motion target_config = Ok pm) ∧
  (∃ vs, make_visits target_config = Ok vs).

End Life.

(** ** Concrete collaborators and inputs, for the examples *)

Module Demo.

Definition demo_solve_offset (a b : pyval) : result OffsetInfo :=
  match a, b with
  | PDict da, PDict db =>
      match da !! "center_ra"%string, db !! "center_ra"%string with
      | Some x, Some y => Ok {[ "delta_ra"%string := y - x ]}
      | _, _ => Raise AssertionError
      end
  | PStr _, _ | _, PStr _ => Raise AssertionError
  | _, _ => Raise TypeError
  end.

Definition demo_read_image_data (fname : option pyval)
    : result (option pixels) :=
  match fname with
  | Some (PStr "ref.fits") => Ok (Some [[1; 2]; [3; 4]])
  | Some (PStr "shifted.fits") => Ok (Some [[2; 1]; [4; 3]])
  | Some (PStr _) => Ok None
  | _ => Raise TypeError
  end.

Definition demo_measure_offset (d1 d2 : pixels) (info : pyval)
    : result OffsetInfo :=
  if decide (length d1 = length d2) then Ok {[ "delta_x"%string := 1 ]}
  else Raise ValueError.

Definition demo_from_name (n : string) : result SkyCoord :=
  if decide (n = "M42"%string) then Ok (83822, -5391)
  else Raise NameResolveError.

Definition demo_sky_coord (position frame : cfgval) : result SkyCoord :=
  match position with
  | CStr "05h35m17s -05d23m28s" => Ok (83821, -5391)
  | _ => Raise ValueError
  end.

(** A visit with [nexp] empty exposures (one by default), not complete. *)
Definition demo_new_observation (od : obs_config) : Observation :=
  mkObservation
    (replicate (Z.to_nat (dict_get od "nexp" 1)) (mkExposure []))
    false.

Definition demo_reset_exposures (o : Observation) : Observation :=
  mkObservation (exposures o) false.

Definition demo : Collaborators := {|
  new_observation := demo_new_observation;
  reset_exposures := demo_reset_exposures;
  exposure_bool := fun _ => true;
  solve_offset := demo_solve_offset;
  read_image_data := demo_read_image_data;
  measure_offset := demo_measure_offset;
  from_name := demo_from_name;
  sky_coord := demo_sky_coord
|}.

(** Executing a visit: it becomes complete. *)
Definition finish (o : Observation) : Observation :=
  mkObservation (exposures o) true.

(** Ten seconds per exposure. *)
Definition demo_estimate_duration (o : Observation) : Z :=
  10 * Z.of_nat (length (exposures o)).

Definition cfg_M42 : target_config :=
  {[ "name"%string := CStr "M42";
     "position"%string := CStr "05h35m17s -05d23m28s" ]}.

Definition cfg_unknown : target_config :=
  {[ "name"%string := CStr "NonexistentObject123";
     "position"%string := CStr "05h35m17s -05d23m28s" ]}.

(** Two visits, the first of two exposures and the second of one. *)
Definition cfg_two_visits : target_config :=
  <[ "visit"%string :=
       CList [ {[ "nexp"%string := 2 ]}; {[ "nexp"%string := 1 ]} ] ]>
    cfg_M42.

Definition cfg_no_name : target_config :=
  {[ "position"%string := CStr "05h35m17s -05d23m28s" ]}.

Definition ref_image : Image :=
  {[ "fits_file"%string := PStr "ref.fits";
     "solved"%string := PDict {[ "center_ra"%string := 83000 ]} ]}.

(** An image whose plate-solve entry is not a dictionary. *)
Definition malformed_image : Image :=
  {[ "fits_file"%string := PStr "shifted.fits";
     "solved"%string := PNum 0 ]}.

(** An image that was not plate-solved and whose file cannot be read. *)
Definition unreadable_image : Image :=
  {[ "fits_file"%string := PStr "missing.fits" ]}.

Definition exposure_of (img : Image) : Exposure :=
  mkExposure [("cam00"%string, img)].

(** A target of one visit whose first exposure has produced [ref_image],
    with an offset already recorded. *)
Definition tracked_target : Target :=
  mkTarget "M42" (83822, -5391) (CStr "2000") (CNum 2000) (CNum 1)
    ("0.0"%string, "0.0"%string)
    [mkObservation [exposure_of ref_image] false]
    1%nat (Some 0%nat) true 0%nat None {[ "delta_ra"%string := 7 ]}.

(** The target that [cfg_two_visits] constructs. *)
Definition two_visits_target : Target :=
  mkTarget "M42" (83822, -5391) (CStr "2000") (CNum 2000) (CNum 1)
    ("0.0"%string, "0.0"%string)
    [mkObservation [mkExposure []; mkExposure []] false;
     mkObservation [mkExposure []] false]
    0%nat None false 0%nat None ∅.

(** [tracked_target] once its reference image has been read. *)
Definition referenced_target : Target :=
  set_reference_image (Some ref_image) tracked_target.

(** Two visits of one and of two exposures. *)
Definition visit_A : Observation := mkObservation [mkExposure []] false.
Definition visit_B : Observation :=
  mkObservation [mkExposure []; mkExposure []] false.

End Demo.

(** * The FLI camera: [pocs/camera/fli.py]

    [Camera] drives the camera through [FLIDriver] ([pocs/camera/libfli.py])
    and writes images with [fits_utils.write_fits]; neither is part of the
    file.  They are the operations of a [Driver] over a device state; every
    call that the camera makes is also appended to [calls], so that the order
    of the calls can be stated for any driver. *)

Module FLI.

(** The exception classes of [fli.py], of [numpy] and of attribute access. *)
Inductive exn : Set :=
  | RuntimeError
  | PanError
  | NotSupported
  | ValueError
  | AttributeError
  | OSError.

#[global] Instance exn_eq_dec : EqDecision exn.
Proof. solve_decision. Defined.

Inductive outcome (A : Type) : Type :=
  | Done (a : A)
  | Raised (e : exn).
Arguments Done {A} a.
Arguments Raised {A} e.

(** A device handle, as [FLIOpen] returns it. *)
Abbreviation handle := Z.

(** An [astropy] quantity: a value and its unit. *)
Record quantity : Type := mkQuantity {
  value : Z;
  units : string
}.

#[global] Instance quantity_eq_dec : EqDecision quantity.
Proof. solve_decision. Defined.

(** What can be assigned to [ccd_set_point]. *)
Inductive number_or_quantity : Type :=
  | Number (z : Z)
  | Quantity (q : quantity).

(** [c.FLI_FRAME_TYPE_NORMAL] and [c.FLI_FRAME_TYPE_DARK] *)
Inductive frame_type : Set :=
  | FLI_FRAME_TYPE_NORMAL
  | FLI_FRAME_TYPE_DARK.

#[global] Instance frame_type_eq_dec : EqDecision frame_type.
Proof. solve_decision. Defined.

(** Upper-left and lower-right corner, each as (x, y). *)
Abbreviation corners := ((Z * Z) * (Z * Z))%type.
Abbreviation header := (gmap string string).
Abbreviation image := (list (list Z)).

(** The calls to the driver and to [write_fits], with their arguments. *)
Inductive command : Type :=
  | CFLIOpen (port : string)
  | CFLISetTemperature (h : handle) (set_point : quantity)
  | CFLISetExposureTime (h : handle) (exposure_time : Z)
  | CFLISetFrameType (h : handle) (ft : frame_type)
  | CFLISetImageArea (h : handle) (upper_left lower_right : Z * Z)
  | CFLISetHBin (h : handle) (bin_factor : Z)
  | CFLISetVBin (h : handle) (bin_factor : Z)
  | CFLISetNFlushes (h : handle) (n_flushes : Z)
  | CFLIExposeFrame (h : handle)
  | CFLIGrabRow (h : handle) (width : Z)
  | CFLIGetSerialString (h : handle)
  | CFLIGetModel (h : handle)
  | CFLIGetHWRevision (h : handle)
  | CFLIGetFWRevision (h : handle)
  | CFLIGetPixelSize (h : handle)
  | CFLIGetArrayArea (h : handle)
  | CFLIGetVisibleArea (h : handle)
  | Cwrite_fits (data : image) (hdr : header) (filename : string).

#[global] Instance command_eq_dec : EqDecision command.
Proof. solve_decision. Defined.

Class Driver (D : Type) : Type := {
  FLIOpen : string → D → outcome handle * D;
  (** [handle == c.FLI_INVALID_DEVICE] *)
  invalid_device : handle → bool;
  FLISetTemperature : handle → quantity → D → outcome unit * D;
  FLISetExposureTime : handle → Z → D → outcome unit * D;
  FLISetFrameType : handle → frame_type → D → outcome unit * D;
  FLISetImageArea : handle → Z * Z → Z * Z → D → outcome unit * D;
  FLISetHBin : handle → Z → D → outcome unit * D;
  FLISetVBin : handle → Z → D → outcome unit * D;
  FLISetNFlushes : handle → Z → D → outcome unit * D;
  FLIExposeFrame : handle → D → outcome unit * D;
  FLIGrabRow : handle → Z → D → outcome (list Z) * D;
  FLIGetSerialString : handle → D → outcome string * D;
  FLIGetModel : handle → D → outcome string * D;
  FLIGetHWRevision : handle → D → outcome string * D;
  FLIGetFWRevision : handle → D → outcome string * D;
  FLIGetPixelSize : handle → D → outcome (quantity * quantity) * D;
  FLIGetArrayArea : handle → D → outcome corners * D;
  FLIGetVisibleArea : handle → D → outcome corners * D;
  (** [fits_utils.write_fits(data, header, filename, logger, event)] *)
  write_fits : image → header → string → D → outcome unit * D
}.

(** [self._info] *)
Record Info : Type := mkInfo {
  serial_number : string;
  camera_model : string;
  hardware_version : string;
  firmware_version : string;
  pixel_width : quantity;
  pixel_height : quantity;
  array_corners : corners;
  array_height : Z;
  array_width : Z;
  visible_corners : corners;
  visible_height : Z;
  visible_width : Z
}.

(** The attributes of a [Camera] that [fli.py] reads or assigns; [None] is
    an attribute that does not exist (yet). *)
Record Camera : Type := mkCamera {
  _address : option string;
  _camera_address : option string;
  _handle : option handle;
  _info : option Info;
  _connected : bool;
  model : option string;
  _set_point : option quantity
}.

Definition set_handle (h : option handle) (c : Camera) : Camera :=
  mkCamera (_address c) (_camera_address c) h (_info c) (_connected c)
    (model c) (_set_point c).
Definition set_info (i : option Info) (c : Camera) : Camera :=
  mkCamera (_address c) (_camera_address c) (_handle c) i (_connected c)
    (model c) (_set_point c).
Definition set_connected (b : bool) (c : Camera) : Camera :=
  mkCamera (_address c) (_camera_address c) (_handle c) (_info c) b
    (model c) (_set_point c).
Definition set_model (m : option string) (c : Camera) : Camera :=
  mkCamera (_address c) (_camera_address c) (_handle c) (_info c)
    (_connected c) m (_set_point c).
Definition set_set_point (q : option quantity) (c : Camera) : Camera :=
  mkCamera (_address c) (_camera_address c) (_handle c) (_info c)
    (_connected c) (model c) q.

(** Conversion to [numpy.uint16]. *)
Definition to_uint16 (z : Z) : Z := z mod 65536.

(** [image_data[i] = row] for a row of [image_data] of length [width]: the
    values are broadcast and converted to [uint16], or [numpy] raises
    [ValueError]. *)
Definition assign_row (width : nat) (row : list Z) : outcome (list Z) :=
  if decide (length row = width) then Done (to_uint16 <$> row)
  else
    match row with
    | [x] => Done (replicate width (to_uint16 x))
    | _ => Raised ValueError
    end.

Section Methods.
Context {D : Type} {driver : Driver D}.

(** The camera, the device and the calls made so far. *)
Record State : Type := mkState {
  cam : Camera;
  device : D;
  calls : list command
}.

(** A method: an outcome and the state it leaves. *)
Definition M (A : Type) : Type := State → outcome A * State.

#[local] Instance M_ret : MRet M := fun A a s => (Done a, s).
#[local] Instance M_bind : MBind M := fun A B f m s =>
  match m s with
  | (Done a, s') => f a s'
  | (Raised e, s') => (Raised e, s')
  end.

Definition throw {A} (e : exn) : M A := fun s => (Raised e, s).

(** Reading the attribute [get]. *)
Definition attr {A} (get : Camera → option A) : M A := fun s =>
  match get (cam s) with
  | Some a => (Done a, s)
  | None => (Raised AttributeError, s)
  end.

Definition assign (f : Camera → Camera) : M unit := fun s =>
  (Done (), mkState (f (cam s)) (device s) (calls s)).

(** The call [c], answered by [f]. *)
Definition call {A} (c : command) (f : D → outcome A * D) : M A := fun s =>
  let '(r, d) := f (device s) in (r, mkState (cam s) d (calls s ++ [c])).

(** [self._driver.f(self._handle, ...)] *)
Definition driver_call {A} (c : handle → command)
    (f : handle → D → outcome A * D) : M A :=
  h ← attr _handle; call (c h) (f h).

(** The [ccd_set_point] property and its setter. *)
Definition ccd_set_point : M quantity := attr _set_point.

Definition ccd_set_point_setter (set_point : number_or_quantity) : M unit :=
  let set_point :=
    match set_point with
    | Quantity q => q
    | Number z => mkQuantity z "deg_C"   (* set_point * u.Celsius *)
    end in
  _ ← driver_call (λ h, CFLISetTemperature h set_point)
        (λ h, FLISetTemperature h set_point);
  assign (set_set_point (Some set_point)).

Definition _get_camera_info : M unit :=
  serial_number ← driver_call CFLIGetSerialString FLIGetSerialString;
  camera_model ← driver_call CFLIGetModel FLIGetModel;
  hardware_version ← driver_call CFLIGetHWRevision FLIGetHWRevision;
  firmware_version ← driver_call CFLIGetFWRevision FLIGetFWRevision;
  pixel_size ← driver_call CFLIGetPixelSize FLIGetPixelSize;
  ccd_corners ← driver_call CFLIGetArrayArea FLIGetArrayArea;
  visible_corners ← driver_call CFLIGetVisibleArea FLIGetVisibleArea;
  assign (set_info (Some
    (mkInfo serial_number camera_model hardware_version firmware_version
       pixel_size.1 pixel_size.2
       ccd_corners
       (ccd_corners.2.2 - ccd_corners.1.2)
       (ccd_corners.2.1 - ccd_corners.1.1)
       visible_corners
       (visible_corners.2.2 - visible_corners.1.2)
       (visible_corners.2.1 - visible_corners.1.1)))).

Definition connect : M unit :=
  address ← attr _address;
  h ← call (CFLIOpen address) (FLIOpen address);
  _ ← assign (set_handle (Some h));
  if invalid_device h then
    (* the message is built from [self.name] and [self._camera_address] *)
    _ ← attr _camera_address;
    throw PanError
  else
    _ ← _get_camera_info;
    info ← attr _info;
    _ ← assign (set_model (Some (camera_model info)));
    assign (set_connected true).

Definition _start_exposure (seconds : Z) (filename : string) (dark : bool)
    (hdr : header) : M (string * Z * Z * header) :=
  _ ← driver_call (λ h, CFLISetExposureTime h seconds)
        (λ h, FLISetExposureTime h seconds);
  let frame_type :=
    if dark then FLI_FRAME_TYPE_DARK else FLI_FRAME_TYPE_NORMAL in
  _ ← driver_call (λ h, CFLISetFrameType h frame_type)
        (λ h, FLISetFrameType h frame_type);
  h ← attr _handle;
  info ← attr _info;
  _ ← call (CFLISetImageArea h (visible_corners info).1
              (visible_corners info).2)
        (FLISetImageArea h (visible_corners info).1 (visible_corners info).2);
  _ ← driver_call (λ h, CFLISetHBin h 1) (λ h, FLISetHBin h 1);
  _ ← driver_call (λ h, CFLISetVBin h 1) (λ h, FLISetVBin h 1);
  _ ← driver_call (λ h, CFLISetNFlushes h 0) (λ h, FLISetNFlushes h 0);
  _ ← driver_call CFLIExposeFrame FLIExposeFrame;
  info ← attr _info;
  mret (filename, visible_width info, visible_height info, hdr).

(** The [for] loop of [_readout], with [n] rows to go from row [i]. *)
Fixpoint grab_rows (n : nat) (i : nat) (width : Z) (image_data : image)
    : M image :=
  match n with
  | O => mret image_data
  | S n' =>
      row ← driver_call (λ h, CFLIGrabRow h width) (λ h, FLIGrabRow h width);
      match assign_row (Z.to_nat width) row with
      | Done row' => grab_rows n' (S i) width (<[i := row']> image_data)
      | Raised e => throw e
      end
  end.

Definition _readout (filename : string) (width height : Z) (hdr : header)
    : M unit := fun s =>
  if decide (height < 0 ∨ width < 0) then
    (Raised ValueError, s)   (* np.zeros: negative dimensions *)
  else
    let image_data :=
      replicate (Z.to_nat height) (replicate (Z.to_nat width) 0) in
    match grab_rows (Z.to_nat height) 0 width image_data s with
    | (Raised RuntimeError, s') => (Raised PanError, s')
    | (Raised e, s') => (Raised e, s')
    | (Done image_data, s') =>
        call (Cwrite_fits image_data hdr filename)
          (write_fits image_data hdr filename) s'
    end.

(** What the device answers to [n] calls of [FLIGrabRow] in a row: the rows
    it delivers, the exception that ends them, if any, and the device
    afterwards. *)
Fixpoint grabbed (n : nat) (h : handle) (width : Z) (d : D)
    : list (list Z) * option exn * D :=
  match n with
  | O => ([], None, d)
  | S n' =>
      match FLIGrabRow h width d with
      | (Done row, d') =>
          let '(rows, e, d'') := grabbed n' h width d' in
          (row :: rows, e, d'')
      | (Raised e, d') => ([], Some e, d')
      end
  end.

(** The calls of a complete [_start_exposure]. *)
Definition start_exposure_calls (h : handle) (seconds : Z) (dark : bool)
    (info : Info) : list command :=
  [ CFLISetExposureTime h seconds;
    CFLISetFrameType h
      (if dark then FLI_FRAME_TYPE_DARK else FLI_FRAME_TYPE_NORMAL);
    CFLISetImageArea h (visible_corners info).1 (visible_corners info).2;
    CFLISetHBin h 1;
    CFLISetVBin h 1;
    CFLISetNFlushes h 0;
    CFLIExposeFrame h ].

(** The calls with which [connect] reads the camera's description. *)
Definition camera_info_calls (h : handle) : list command :=
  [ CFLIGetSerialString h; CFLIGetModel h; CFLIGetHWRevision h;
    CFLIGetFWRevision h; CFLIGetPixelSize h; CFLIGetArrayArea h;
    CFLIGetVisibleArea h ].

End Methods.

Arguments State D : clear implicits.
Arguments M D A : clear implicits.

End FLI.

(** A camera and a device for the examples: the device delivers two rows
    and then fails; its state counts the rows it has delivered. *)
Module FLIDemo.

Definition demo_driver : FLI.Driver nat := {|
  FLI.FLIOpen port d :=
    (FLI.Done (if decide (port = "usb0"%string) then 7 else -1), d);
  FLI.invalid_device h := bool_decide (h = -1);
  FLI.FLISetTemperature _ _ d := (FLI.Done (), d);
  FLI.FLISetExposureTime _ _ d := (FLI.Done (), d);
  FLI.FLISetFrameType _ _ d := (FLI.Done (), d);
  FLI.FLISetImageArea _ _ _ d := (FLI.Done (), d);
  FLI.FLISetHBin _ _ d := (FLI.Done (), d);
  FLI.FLISetVBin _ _ d := (FLI.Done (), d);
  FLI.FLISetNFlushes _ _ d := (FLI.Done (), d);
  FLI.FLIExposeFrame _ d := (FLI.Done (), d);
  FLI.FLIGrabRow _ width d :=
    if decide (d < 2)%nat
    then (FLI.Done (replicate (Z.to_nat width) (65536 + Z.of_nat d)), S d)
    else (FLI.Raised FLI.RuntimeError, d);
  FLI.FLIGetSerialString _ d := (FLI.Done "ML0123"%string, d);
  FLI.FLIGetModel _ d := (FLI.Done "MicroLine ML50100"%string, d);
  FLI.FLIGetHWRevision _ d := (FLI.Done "1.0"%string, d);
  FLI.FLIGetFWRevision _ d := (FLI.Done "2.0"%string, d);
  FLI.FLIGetPixelSize _ d :=
    (FLI.Done (FLI.mkQuantity 6 "um", FLI.mkQuantity 6 "um"), d);
  FLI.FLIGetArrayArea _ d := (FLI.Done ((0, 0), (6, 4)), d);
  FLI.FLIGetVisibleArea _ d := (FLI.Done ((1, 1), (4, 3)), d);
  FLI.write_fits _ _ _ d := (FLI.Done (), d)
|}.

Definition demo_info : FLI.Info :=
  FLI.mkInfo "ML0123" "MicroLine ML50100" "1.0" "2.0"
    (FLI.mkQuantity 6 "um") (FLI.mkQuantity 6 "um")
    ((0, 0), (6, 4)) 4 6 ((1, 1), (4, 3)) 2 3.

(** A camera that has not connected yet, on the port the device is on and
    on another one. *)
Definition new_camera (port : string) : FLI.Camera :=
  FLI.mkCamera (Some port) None None None false None None.

Definition connected_camera : FLI.Camera :=
  FLI.mkCamera (Some "usb0"%string) None (Some 7) (Some demo_info) true
    (Some "MicroLine ML50100"%string) None.

Definition fresh (c : FLI.Camera) : FLI.State nat := FLI.mkState c 0%nat [].

End FLIDemo.

(** ** Further inputs, for the examples of the further properties *)

Module Examples.

(** A plate-solved image of another file. *)
Definition solved_image : Image :=
  {[ "fits_file"%string := PStr "shifted.fits";
     "solved"%string := PDict {[ "center_ra"%string := 83010 ]} ]}.

(** An image of another, readable file that was not plate-solved. *)
Definition unsolved_image : Image :=
  {[ "fits_file"%string := PStr "shifted.fits" ]}.

(** Neither a name that resolves nor a position that parses. *)
Definition cfg_nowhere : target_config :=
  {[ "name"%string := CStr "NonexistentObject123";
     "position"%string := CStr "somewhere" ]}.

(** A name that resolves, with a position that does not parse. *)
Definition cfg_M42_odd_position : target_config :=
  {[ "name"%string := CStr "M42";
     "position"%string := CStr "somewhere" ]}.

(** A proper motion of one field. *)
Definition cfg_one_field : target_config :=
  <[ "proper_motion"%string := CStr "0.5" ]> Demo.cfg_M42.

End Examples.

(** * Properties *)

(** ** The generator of [get_visit_iter] *)

Lemma set_visits_same t : set_visits (visits t) t = t.
Proof. by destruct t. Qed.

Lemma get_visit_iter_next_yield g t o :
  visit t !! g = Some o →
  get_visit_iter_next g t =
    (Some g, S g,
     mkTarget (name t) (coord t) (equinox t) (epoch t) (priority t)
       (proper_motion t) (visit t) (visits t) (Some g)
       (if bool_decide (S g = length (visit t)) then true
        else _done_visiting t)
       g (_reference_image t) (_offset_info t)).
Proof.
  intros Hg. unfold get_visit_iter_next. rewrite Hg. cbn.
  destruct (Z.eqb_spec (Z.of_nat g) (Z.of_nat (length (visit t)) - 1));
    case_bool_decide; try lia; reflexivity.
Qed.

Lemma get_visit_iter_next_stop g t :
  visit t !! g = None → get_visit_iter_next g t = (None, g, t).
Proof. intros Hg. unfold get_visit_iter_next. by rewrite Hg. Qed.

(** ** [reset_visits] in closed form *)

Section ResetVisits.
Context {collab : Collaborators}.

Lemma reset_loop_end_step g t o :
  visit t !! g = Some o →
  reset_loop_end (S g)
    (reset_exposures_at g (get_visit_iter_next g t).2) =
  reset_loop_end g t.
Proof.
  intros Hg. pose proof (lookup_lt_Some _ _ _ Hg) as Hlt.
  rewrite (get_visit_iter_next_yield _ _ _ Hg).
  unfold reset_loop_end, reset_exposures_at. cbn.
  rewrite length_alter.
  assert (Hvis : take (S g) (alter reset_exposures g (visit t)) ++
            (reset_exposures <$> drop (S g) (alter reset_exposures g (visit t)))
          = take g (visit t) ++ (reset_exposures <$> drop g (visit t))).
  { rewrite (drop_S _ _ _ Hg), fmap_cons, cons_middle, app_assoc.
    rewrite drop_alter.
    erewrite take_S_r by (rewrite list_lookup_alter_eq, Hg; reflexivity).
    rewrite take_alter. repeat case_decide; try lia. reflexivity. }
  destruct (decide (g < length (visit t))%nat); [|lia].
  destruct (decide (S g < length (visit t))%nat).
  - rewrite Hvis. reflexivity.
  - assert (S g = length (visit t)) as Hlast by lia.
    rewrite bool_decide_true by done.
    rewrite <- Hvis, <- Hlast.
    rewrite drop_ge by (rewrite length_alter; lia).
    rewrite take_ge by (rewrite length_alter; lia).
    rewrite fmap_nil, app_nil_r.
    replace (S g - 1)%nat with g by lia. reflexivity.
Qed.

(** With enough fuel the loop reaches [reset_loop_end]; the fuel that
    [reset_visits] gives is enough. *)
Lemma reset_loop_spec fuel g t :
  (length (visit t) - g < fuel)%nat →
  reset_loop fuel g t = reset_loop_end g t.
Proof.
  revert g t. induction fuel as [|fuel IH]; intros g t Hfuel; [lia|].
  cbn [reset_loop].
  destruct (visit t !! g) as [o|] eqn:Hg.
  - pose proof (lookup_lt_Some _ _ _ Hg) as Hlt.
    rewrite <- (reset_loop_end_step g t o Hg).
    rewrite (get_visit_iter_next_yield _ _ _ Hg). cbn [snd].
    apply IH. unfold reset_exposures_at. cbn.
    rewrite length_alter. lia.
  - rewrite (get_visit_iter_next_stop _ _ Hg).
    apply lookup_ge_None in Hg. unfold reset_loop_end.
    destruct (decide (g < length (visit t))%nat); [lia|done].
Qed.

Lemma reset_visits_eq t :
  reset_visits t =
    mkTarget (name t) (coord t) (equinox t) (epoch t) (priority t)
      (proper_motion t) (reset_exposures <$> visit t) 0%nat None false
      (if decide (visit t = []) then _visit_num t
       else (length (visit t) - 1)%nat)
      (_reference_image t) (_offset_info t).
Proof.
  unfold reset_visits. rewrite reset_loop_spec by lia.
  unfold reset_loop_end.
  destruct (decide (0 < length (visit t))%nat) as [Hpos|Hpos];
    destruct (decide (visit t = [])) as [Hnil|Hnil]; cbn.
  - rewrite Hnil in Hpos. cbn in Hpos. lia.
  - rewrite drop_0. reflexivity.
  - unfold set_done_visiting, set_current_visit, set_visits. cbn.
    f_equal. by rewrite Hnil.
  - destruct (visit t); [done|cbn in Hpos; lia].
Qed.

Lemma reset_visits_length t :
  length (visit (reset_visits t)) = length (visit t).
Proof. rewrite reset_visits_eq. cbn. apply length_fmap. Qed.

Lemma Target_init_Ok target_config t :
  Target_init target_config = Ok t →
  ∃ nm c pm vs,
    target_config !! "name"%string = Some (CStr nm) ∧
    is_Some (target_config !! "position"%string) ∧
    resolve_coord target_config nm = Ok c ∧
    parse_proper_motion target_config = Ok pm ∧
    make_visits target_config = Ok vs ∧
    t = mkTarget nm c (dict_get target_config "equinox" (CStr "2000"))
          (dict_get target_config "epoch" (CNum 2000))
          (dict_get target_config "priority" (CNum 1)) pm
          (reset_exposures <$> vs) 0%nat None false 0%nat None ∅.
Proof.
  unfold Target_init, py_assert, dict_item.
  destruct (target_config !! "name"%string) as [n|] eqn:Hn; cbn; [|done].
  destruct (target_config !! "position"%string) as [p|] eqn:Hp; cbn; [|done].
  destruct n as [nm| |]; cbn; try done.
  destruct (resolve_coord target_config nm) as [c|] eqn:Hc; cbn; [|done].
  destruct (parse_proper_motion target_config) as [pm|] eqn:Hpm; cbn; [|done].
  destruct (make_visits target_config) as [vs|] eqn:Hvs; cbn; [|done].
  intros [= <-]. exists nm, c, pm, vs.
  rewrite reset_visits_eq. repeat split; eauto.
Qed.

End ResetVisits.

(** ** [get_visit], case by case *)

Lemma get_visit_advance t o :
  wants_next t = true →
  visit t !! visits t = Some o →
  get_visit t =
    (Ok (visits t),
     mkTarget (name t) (coord t) (equinox t) (epoch t) (priority t)
       (proper_motion t) (visit t) (S (visits t)) (Some (visits t))
       (if bool_decide (S (visits t) = length (visit t)) then true
        else _done_visiting t)
       (visits t) (_reference_image t) (_offset_info t)).
Proof.
  intros Hw Hv. unfold get_visit, wants_next in *.
  rewrite (get_visit_iter_next_yield _ _ _ Hv).
  destruct (current_visit t); [rewrite Hw|]; reflexivity.
Qed.

Lemma get_visit_exhausted t :
  wants_next t = true →
  visit t !! visits t = None →
  get_visit t = (Raise StopIteration, t).
Proof.
  intros Hw Hv. unfold get_visit, wants_next in *.
  rewrite (get_visit_iter_next_stop _ _ Hv), set_visits_same.
  destruct (current_visit t); [rewrite Hw|]; reflexivity.
Qed.

Lemma get_visit_stay t v :
  current_visit t = Some v →
  visit_complete t v = false →
  get_visit t = (Ok v, t).
Proof. intros Hc Hv. unfold get_visit. by rewrite Hc, Hv. Qed.

Section SequencerProperties.
Context {collab : Collaborators}.

Lemma get_visit_after_reset t :
  visit t ≠ [] →
  (get_visit (reset_visits t)).1 = Ok 0%nat ∧
  visit_num (get_visit (reset_visits t)).2 = 0%nat ∧
  current_visit (get_visit (reset_visits t)).2 = Some 0%nat.
Proof.
  intros Hne.
  assert (∃ o, visit (reset_visits t) !! visits (reset_visits t) = Some o)
    as [o Ho].
  { rewrite reset_visits_eq. cbn. destruct (visit t); [done|]. cbn. eauto. }
  rewrite (get_visit_advance _ o); [|by rewrite reset_visits_eq|done].
  rewrite reset_visits_eq. done.
Qed.

(** C10: after [reset_visits()] on a target of N >= 1 visits, [visit_num]
    is N - 1, the index that the reset pass over the visits leaves behind
    (so it is not 0 as soon as there are two visits); it is 0 again once
    the next [get_visit()] has yielded the first visit. *)
Theorem reset_visits_leaves_last_visit_num t :
  visit t ≠ [] →
  visit_num (reset_visits t) = (length (visit t) - 1)%nat ∧
  ((2 ≤ length (visit t))%nat → visit_num (reset_visits t) ≠ 0%nat) ∧
  (get_visit (reset_visits t)).1 = Ok 0%nat ∧
  visit_num (get_visit (reset_visits t)).2 = 0%nat.
Proof.
  intros Hne.
  assert (visit_num (reset_visits t) = (length (visit t) - 1)%nat) as Hn.
  { rewrite reset_visits_eq. unfold visit_num. cbn.
    by destruct (decide (visit t = [])). }
  destruct (get_visit_after_reset t Hne) as (Hv & Hnum & _).
  repeat split; try done. rewrite Hn. lia.
Qed.

(** Resetting twice gives the sequencing attributes of resetting once. *)
Lemma reset_visits_sequencer_idempotent t :
  sequencer (reset_visits (reset_visits t)) = sequencer (reset_visits t).
Proof.
  rewrite !reset_visits_eq. unfold sequencer. cbn.
  rewrite length_fmap.
  destruct (visit t) as [|o l]; [done|]. cbn.
  destruct (decide (_ = [])); done.
Qed.

(** When [reset_exposures] is itself idempotent, so is [reset_visits] on
    the whole state. *)
Lemma reset_visits_state_idempotent t :
  (∀ o, reset_exposures (reset_exposures o) = reset_exposures o) →
  reset_visits (reset_visits t) = reset_visits t.
Proof.
  intros Hidem. rewrite !reset_visits_eq. cbn.
  rewrite length_fmap, <- list_fmap_compose.
  f_equal.
  - apply list_fmap_ext. intros ? o ?. apply Hidem.
  - destruct (visit t) as [|o l]; [done|]. cbn.
    destruct (decide (_ = [])); done.
Qed.

(** C6: [reset_visits()] is idempotent on the sequencer: after two calls
    in a row the sequencing attributes are those after one call,
    [current_visit] is null, the exhaustion flag is false, and the next
    [get_visit()] returns visit 0. *)
Theorem reset_visits_idempotent t :
  visit t ≠ [] →
  sequencer (reset_visits (reset_visits t)) = sequencer (reset_visits t) ∧
  current_visit (reset_visits (reset_visits t)) = None ∧
  done_visiting (reset_visits (reset_visits t)) = false ∧
  current_visit (reset_visits t) = None ∧
  done_visiting (reset_visits t) = false ∧
  (get_visit (reset_visits (reset_visits t))).1 = Ok 0%nat ∧
  (get_visit (reset_visits t)).1 = Ok 0%nat.
Proof.
  intros Hne.
  assert (visit (reset_visits t) ≠ []) as Hne'.
  { intros Hnil. apply Hne. apply length_zero_iff_nil.
    by rewrite <- reset_visits_length, Hnil. }
  split; [apply reset_visits_sequencer_idempotent|].
  split; [by rewrite reset_visits_eq|].
  split; [by rewrite reset_visits_eq|].
  split; [by rewrite reset_visits_eq|].
  split; [by rewrite reset_visits_eq|].
  split; by apply get_visit_after_reset.
Qed.

(** The observing loop from the middle of the sequence. *)
Lemma observe_from finish :
  (∀ o, complete (finish o) = true) →
  ∀ k g t,
    (g + k)%nat = length (visit t) →
    visits t = g →
    wants_next t = true →
    ((0 < k)%nat → _done_visiting t = false) →
    (observe finish k t).1 =
      (λ i, (Ok i, bool_decide (S i = length (visit t)))) <$> seq g k.
Proof.
  intros Hfin. induction k as [|k IH]; intros g t Hlen Hg Hw Hdone; [done|].
  destruct (lookup_lt_is_Some_2 (visit t) g) as [o Ho]; [lia|].
  cbn [observe seq fmap list_fmap].
  rewrite <- Hg in Ho. rewrite (get_visit_advance t o Hw Ho).
  rewrite Hdone by lia. rewrite Hg in *. clear Hdone.
  set (t' := run_visit finish g _).
  assert (length (visit t') = length (visit t)) as Hlen'.
  { unfold t', run_visit. cbn. apply length_alter. }
  specialize (IH (S g) t').
  destruct (observe finish k t') as [rs t''] eqn:Hobs. cbn [fst] in *.
  rewrite IH.
  - rewrite Hlen'. f_equal. unfold done_visiting. cbn.
    by case_bool_decide.
  - lia.
  - done.
  - unfold wants_next, visit_complete, t', run_visit. cbn.
    by rewrite list_lookup_alter_eq, Ho; cbn.
  - intros Hk. unfold t', run_visit. cbn.
    rewrite bool_decide_false by lia. done.
Qed.

(** C2: on a target of N >= 1 visits, after a reset as well as right
    after construction, fetching with [get_visit()] and running each
    fetched visit to completion, N times, returns the visits 0, 1, ...,
    N - 1 in this order, and [done_visiting] reads true exactly from the
    fetch of the last one on.  The flag is set by the iteration primitive
    at the step that yields the last visit, which becomes the current visit
    and is not itself touched, complete or not. *)
Theorem visits_in_specification_order finish t :
  (∀ o, complete (finish o) = true) →
  visit t ≠ [] →
  (observe finish (length (visit t)) (reset_visits t)).1 =
    (λ i, (Ok i, bool_decide (S i = length (visit t))))
      <$> seq 0 (length (visit t)) ∧
  (∀ target_config, Target_init target_config = Ok t →
     (observe finish (length (visit t)) t).1 =
       (λ i, (Ok i, bool_decide (S i = length (visit t))))
         <$> seq 0 (length (visit t))) ∧
  (∀ s g o, visit s !! g = Some o → S g = length (visit s) →
     (get_visit_iter_next g s).1 = (Some g, S g) ∧
     _done_visiting (get_visit_iter_next g s).2 = true ∧
     current_visit (get_visit_iter_next g s).2 = Some g ∧
     visit (get_visit_iter_next g s).2 = visit s) ∧
  (∀ s g o, visit s !! g = Some o → S g ≠ length (visit s) →
     _done_visiting (get_visit_iter_next g s).2 = _done_visiting s).
Proof.
  intros Hfin Hne. split; [|split; [|split]].
  - rewrite <- (reset_visits_length t) at 1.
    rewrite (observe_from finish Hfin _ 0%nat).
    + by rewrite reset_visits_length.
    + done.
    + by rewrite reset_visits_eq.
    + by rewrite reset_visits_eq.
    + intros _. by rewrite reset_visits_eq.
  - intros target_config
      (nm & c & pm & vs & _ & _ & _ & _ & _ & Ht)%Target_init_Ok.
    apply (observe_from finish Hfin _ 0%nat); by rewrite ?Ht.
  - intros s g o Hg Hlast.
    rewrite (get_visit_iter_next_yield _ _ _ Hg). cbn.
    by rewrite bool_decide_true.
  - intros s g o Hg Hlast.
    rewrite (get_visit_iter_next_yield _ _ _ Hg). cbn.
    by rewrite bool_decide_false.
Qed.

End SequencerProperties.

(** ** What the tracker and the constructor leave alone *)

Lemma set_reference_image_same t :
  set_reference_image (_reference_image t) t = t.
Proof. by destruct t. Qed.

Lemma set_offset_info_same t : set_offset_info (_offset_info t) t = t.
Proof. by destruct t. Qed.

Section Frames.
Context {collab : Collaborators}.

Lemma reference_image_try_spec t :
  reference_image_try t =
    match visit t !! 0%nat with
    | None => Raise IndexError
    | Some first_visit =>
        match exposures first_visit !! 0%nat with
        | None => Raise IndexError
        | Some first_exp =>
            if exposure_bool first_exp then
              match od_values (images first_exp) !! 0%nat with
              | None => Raise IndexError
              | Some img => Ok (set_reference_image (Some img) t)
              end
            else Ok t
        end
    end.
Proof.
  unfold reference_image_try, index.
  destruct (visit t !! 0%nat) as [v|]; [|done]. cbn.
  destruct (exposures v !! 0%nat) as [e|]; [|done]. cbn.
  destruct (exposure_bool e); [|done].
  by destruct (od_values (images e) !! 0%nat).
Qed.

(** An access to [reference_image] changes at most [_reference_image],
    to the value it returns. *)
Lemma reference_image_state t :
  (reference_image t).2 = set_reference_image (reference_image t).1 t.
Proof.
  unfold reference_image.
  destruct (_reference_image t) as [r|] eqn:Hr; cbn.
  - by rewrite Hr, <- Hr, set_reference_image_same.
  - rewrite reference_image_try_spec.
    repeat case_match; simplify_eq; cbn;
      by rewrite ?set_reference_image_same.
Qed.

Lemma reference_image_unset t :
  _reference_image t = None →
  (reference_image t).1 = spec_first_image t.
Proof.
  intros Hr. unfold reference_image, spec_first_image.
  rewrite Hr, reference_image_try_spec.
  destruct (visit t !! 0%nat) as [v|]; cbn; [|done].
  destruct (exposures v !! 0%nat) as [e|]; cbn; [|done].
  destruct (exposure_bool e); cbn; [|done].
  by destruct (od_values (images e) !! 0%nat).
Qed.

Lemma reference_image_set t r :
  _reference_image t = Some r → reference_image t = (Some r, t).
Proof. intros Hr. unfold reference_image. rewrite Hr. cbn. by rewrite Hr. Qed.

(** A call of [get_image_offset] changes at most [_reference_image] (by
    its read of the property) and [_offset_info]. *)
Lemma get_image_offset_state exposure t :
  ∃ off,
    (get_image_offset exposure t).2 =
      set_offset_info off (reference_image t).2.
Proof.
  unfold get_image_offset.
  destruct (reference_image t) as [r t'] eqn:Hr. cbn [snd].
  repeat case_match; cbn [snd];
    first [ by eexists
          | exists (_offset_info t'); by rewrite set_offset_info_same ].
Qed.

(** ** The sequencer invariant *)

Lemma sequencer_inv_init target_config t :
  Target_init target_config = Ok t → sequencer_inv t.
Proof.
  intros (nm & c & pm & vs & _ & _ & _ & _ & _ & ->)%Target_init_Ok.
  by unfold sequencer_inv.
Qed.

Lemma sequencer_inv_step t t' :
  step t t' → sequencer_inv t → sequencer_inv t'.
Proof.
  intros Hstep Hinv. destruct Hstep as [t|t|t|e t|l t Hl].
  - (* get_visit *)
    destruct (wants_next t) eqn:Hw.
    + destruct (visit t !! visits t) as [o|] eqn:Hv.
      * rewrite (get_visit_advance t o Hw Hv).
        apply lookup_lt_Some in Hv.
        unfold sequencer_inv. cbn. repeat split; [done|].
        case_bool_decide; [done|].
        unfold sequencer_inv in Hinv.
        destruct (current_visit t) as [v|].
        -- destruct Hinv as (Hg & _ & ->). rewrite bool_decide_false; [done|lia].
        -- by destruct Hinv as [_ ->].
      * by rewrite (get_visit_exhausted t Hw Hv).
    + unfold wants_next in Hw.
      destruct (current_visit t) as [v|] eqn:Hc; [|done].
      by rewrite (get_visit_stay t v Hc Hw).
  - by rewrite reset_visits_eq.
  - by rewrite reference_image_state.
  - destruct (get_image_offset_state e t) as [off ->].
    by rewrite reference_image_state.
  - unfold sequencer_inv in *. cbn. by rewrite Hl.
Qed.

Lemma sequencer_inv_reachable t : reachable t → sequencer_inv t.
Proof.
  intros (cfg & t0 & Hinit & Hsteps).
  apply sequencer_inv_init in Hinit.
  induction Hsteps as [|t1 t2 t3 Hstep _ IH]; [done|].
  apply IH. by eapply sequencer_inv_step.
Qed.

(** [current_visit] always refers to one of the visits. *)
Lemma current_visit_in_range t v :
  reachable t → current_visit t = Some v → is_Some (visit t !! v).
Proof.
  intros Hinv%sequencer_inv_reachable Hc. unfold sequencer_inv in Hinv.
  rewrite Hc in Hinv. apply lookup_lt_is_Some. tauto.
Qed.

(** The observing loop is made of steps. *)
Lemma observe_steps finish n t : rtc step t (observe finish n t).2.
Proof.
  revert t. induction n as [|n IH]; intros t; cbn [observe]; [done|].
  pose proof (step_get_visit t) as Hget.
  destruct (get_visit t) as [r t1]. cbn [snd] in Hget.
  set (t2 := match r with Ok v => run_visit finish v t1 | Raise _ => t1 end).
  assert (rtc step t1 t2) as H12.
  { unfold t2. destruct r as [v|]; [|done].
    apply rtc_once. unfold run_visit. apply step_observe, length_alter. }
  specialize (IH t2). destruct (observe finish n t2) as [rs t3].
  cbn [snd] in *.
  eapply rtc_l; [exact Hget|]. by etrans.
Qed.

(** C5: on a target whose visit sequence is exhausted ([done_visiting] is
    true) and whose final visit is complete, [get_visit()] raises
    [StopIteration]. *)
Theorem get_visit_after_exhaustion t :
  reachable t →
  done_visiting t = true →
  (∃ o, last (visit t) = Some o ∧ complete o = true) →
  get_visit t = (Raise StopIteration, t).
Proof.
  intros Hinv%sequencer_inv_reachable Hdone (o & Hlast & Ho).
  unfold sequencer_inv, done_visiting in *.
  destruct (current_visit t) as [v|] eqn:Hc; [|destruct Hinv; congruence].
  destruct Hinv as (Hg & Hv & Hflag).
  rewrite Hdone in Hflag. symmetry in Hflag.
  apply bool_decide_eq_true in Hflag.
  apply get_visit_exhausted.
  - unfold wants_next, visit_complete. rewrite Hc.
    rewrite last_lookup, <- Hflag in Hlast. cbn in Hlast.
    by rewrite Hlast.
  - apply lookup_ge_None. lia.
Qed.

End Frames.

(** ** The reference image *)

Section ReferenceImage.
Context {collab : Collaborators}.

Lemma get_visit_reference_image t :
  _reference_image (get_visit t).2 = _reference_image t.
Proof.
  destruct (wants_next t) eqn:Hw.
  - destruct (visit t !! visits t) as [o|] eqn:Hv.
    + by rewrite (get_visit_advance t o Hw Hv).
    + by rewrite (get_visit_exhausted t Hw Hv).
  - unfold wants_next in Hw.
    destruct (current_visit t) as [v|] eqn:Hc; [|done].
    by rewrite (get_visit_stay t v Hc Hw).
Qed.

Lemma reference_image_kept_step t t' r :
  step t t' → _reference_image t = Some r → _reference_image t' = Some r.
Proof.
  intros Hstep Hr. destruct Hstep as [t|t|t|e t|l t Hl].
  - by rewrite get_visit_reference_image.
  - by rewrite reset_visits_eq.
  - by rewrite (reference_image_set t r Hr).
  - destruct (get_image_offset_state e t) as [off ->].
    by rewrite (reference_image_set t r Hr).
  - done.
Qed.

Lemma reference_image_kept t t' r :
  rtc step t t' → _reference_image t = Some r → _reference_image t' = Some r.
Proof.
  induction 1 as [|t1 t2 t3 Hstep _ IH]; [done|].
  intros Hr. apply IH. by eapply reference_image_kept_step.
Qed.


End ReferenceImage.

(** ** The image offset *)

Section ImageOffset.
Context {collab : Collaborators}.

Lemma reference_image_offset_info t :
  _offset_info (reference_image t).2 = _offset_info t.
Proof. by rewrite reference_image_state. Qed.

Lemma reference_image_none t :
  (reference_image t).1 = None → reference_image t = (None, t).
Proof.
  intros Hnone. rewrite (surjective_pairing (reference_image t)).
  rewrite reference_image_state, Hnone.
  assert (_reference_image t = None) as Hr.
  { unfold reference_image in Hnone.
    destruct (_reference_image t) as [r|] eqn:Hr; [|done].
    cbn in Hnone. congruence. }
  by rewrite <- Hr, set_reference_image_same.
Qed.

(** The reference image that [get_image_offset] sees does not depend on
    the offset routines. *)
Lemma reference_image_routines so rd mo t :
  @reference_image (with_offset_routines collab so rd mo) t =
  @reference_image collab t.
Proof. reflexivity. Qed.

(** C8: [get_image_offset] computes nothing and returns the current
    [offset_info], unchanged, when no reference image is available yet
    and when the last image of the exposure names the same file as the
    reference image; in both cases the outcome is the same whatever the
    offset routines are. *)
Theorem get_image_offset_no_computation exposure t :
  ((reference_image t).1 = None →
     get_image_offset exposure t = (Ok (_offset_info t), t) ∧
     ∀ so rd mo,
       @get_image_offset (with_offset_routines collab so rd mo) exposure t
       = (Ok (_offset_info t), t)) ∧
  (∀ ref last,
     (reference_image t).1 = Some ref →
     last_image exposure = Ok last →
     file_name ref = file_name last →
     get_image_offset exposure t =
       (Ok (_offset_info t), (reference_image t).2) ∧
     _offset_info (reference_image t).2 = _offset_info t ∧
     ∀ so rd mo,
       @get_image_offset (with_offset_routines collab so rd mo) exposure t
       = (Ok (_offset_info t), (reference_image t).2)).
Proof.
  split.
  - intros Hnone%reference_image_none. split; [|intros so rd mo];
      unfold get_image_offset; rewrite ?reference_image_routines;
      by rewrite Hnone.
  - intros ref last Href Hlast Hsame.
    pose proof (reference_image_offset_info t) as Hoff.
    split; [|split; [done|intros so rd mo]];
      unfold get_image_offset; rewrite ?reference_image_routines;
      destruct (reference_image t) as [r t1]; cbn in Href, Hoff |- *;
      subst r; rewrite Hlast; (rewrite decide_True by done); by rewrite Hoff.
Qed.

(** A failure of tier 1 that is not an [AssertionError] leaves
    [get_image_offset] as it is. *)
Lemma get_image_offset_propagates exposure t ref last e :
  (reference_image t).1 = Some ref →
  last_image exposure = Ok last →
  file_name ref ≠ file_name last →
  plate_solve ref last = Raise e →
  e ≠ AssertionError →
  get_image_offset exposure t = (Raise e, (reference_image t).2).
Proof.
  intros Href Hlast Hdiff Hsolve He. unfold get_image_offset.
  destruct (reference_image t) as [r t1]. cbn in Href |- *. subst r.
  rewrite Hlast, decide_False, Hsolve by done.
  unfold only. by rewrite bool_decide_false.
Qed.

(** C1, as the code has it: on a target with a reference image and an
    exposure that holds an image, [get_image_offset] does not raise as
    long as tier 1 signals its failures by [AssertionError]; and when
    tier 1 fails so and tier 2 fails in any way, it returns the previous
    [offset_info] and leaves it in place. *)
Theorem get_image_offset_recoverable exposure t ref last :
  (reference_image t).1 = Some ref →
  last_image exposure = Ok last →
  (∀ e, plate_solve ref last = Raise e → e = AssertionError) →
  (∃ off, get_image_offset exposure t =
            (Ok off, set_offset_info off (reference_image t).2)) ∧
  (∀ e1 e2,
     plate_solve ref last = Raise e1 →
     phase_translation ref (file_name ref) (file_name last) = Raise e2 →
     get_image_offset exposure t =
       (Ok (_offset_info t), (reference_image t).2) ∧
     _offset_info (get_image_offset exposure t).2 = _offset_info t).
Proof.
  intros Href Hlast Hassert.
  pose proof (reference_image_offset_info t) as Hoff.
  unfold get_image_offset.
  destruct (reference_image t) as [r t1]. cbn in Href, Hoff |- *. subst r.
  rewrite Hlast.
  destruct (decide (file_name ref = file_name last)) as [Hsame|Hdiff].
  - split.
    + exists (_offset_info t1). by rewrite set_offset_info_same.
    + intros e1 e2 _ _. by rewrite Hoff.
  - destruct (plate_solve ref last) as [off|e] eqn:Hsolve.
    + split; [by exists off|]. intros e1 e2 [=].
    + rewrite (Hassert e eq_refl). cbn.
      destruct (phase_translation ref (file_name ref) (file_name last))
        as [off|e'] eqn:Hphase.
      * split; [by exists off|]. intros e1 e2 _ [=].
      * split.
        -- exists (_offset_info t1). by rewrite set_offset_info_same.
        -- intros e1 e2 _ _. by rewrite Hoff.
Qed.

End ImageOffset.

(** ** The duration estimate *)

Section DurationProperties.
Context {Q : Type} `{Quantity Q}.
Variable estimate_duration : Observation → Q.

Lemma fold_durations_from overhead (l : list Observation) (d : Q) :
  fold_left
    (fun duration obs =>
       q_add duration (q_add (estimate_duration obs) overhead)) l d =
  q_add d (sum_durations estimate_duration overhead l).
Proof.
  unfold sum_durations. revert d.
  induction l as [|obs l IH]; intros d; cbn [fold_left].
  - by rewrite q_add_0_r.
  - rewrite IH, (IH (q_add q_zero _)), q_add_0_l.
    symmetry. apply q_add_assoc.
Qed.

Lemma sum_durations_app overhead (l1 l2 : list Observation) :
  sum_durations estimate_duration overhead (l1 ++ l2) =
  q_add (sum_durations estimate_duration overhead l1)
        (sum_durations estimate_duration overhead l2).
Proof.
  unfold sum_durations at 1. rewrite fold_left_app.
  apply fold_durations_from.
Qed.


End DurationProperties.

(** ** Construction *)

Section ConstructionProperties.
Context {collab : Collaborators}.

(** C4, as the code has it: when ['name'] is missing, ['position'] is
    missing or the value of ['name'] is not a string, the constructor
    raises [AssertionError] (one of its three [assert] statements fails)
    and no Target is created. *)
Theorem Target_init_rejects (target_config : target_config) :
  target_config !! "name"%string = None ∨
  target_config !! "position"%string = None ∨
  (∃ v, target_config !! "name"%string = Some v ∧ is_str v = false) →
  Target_init target_config = Raise AssertionError ∧
  ∀ t, Target_init target_config ≠ Ok t.
Proof.
  intros Hbad.
  assert (Target_init target_config = Raise AssertionError) as Hraise.
  { unfold Target_init, py_assert, dict_item.
    destruct (target_config !! "name"%string) as [n|] eqn:Hn; cbn; [|done].
    destruct (target_config !! "position"%string) as [p|] eqn:Hp; cbn;
      [|done].
    destruct Hbad as [?|[?|(v & [= <-] & Hv)]]; try done.
    by destruct n. }
  split; [done|]. intros t. by rewrite Hraise.
Qed.

Lemma resolve_coord_fallback (target_config : target_config) nm position c e :
  target_config !! "position"%string = Some position →
  from_name nm = Raise e →
  sky_coord position (dict_get target_config "frame" (CStr "icrs")) = Ok c →
  resolve_coord target_config nm = Ok c.
Proof.
  intros Hpos Hname Hparse. unfold resolve_coord, try_except, dict_item.
  rewrite Hname. cbn. by rewrite Hpos.
Qed.

Lemma Target_init_succeeds (target_config : target_config) nm position c pm vs :
  target_config !! "name"%string = Some (CStr nm) →
  target_config !! "position"%string = Some position →
  resolve_coord target_config nm = Ok c →
  parse_proper_motion target_config = Ok pm →
  make_visits target_config = Ok vs →
  Target_init target_config =
    Ok (mkTarget nm c (dict_get target_config "equinox" (CStr "2000"))
          (dict_get target_config "epoch" (CNum 2000))
          (dict_get target_config "priority" (CNum 1)) pm
          (reset_exposures <$> vs) 0%nat None false 0%nat None ∅).
Proof.
  intros Hn Hp Hc Hpm Hvs. unfold Target_init, py_assert, dict_item.
  rewrite Hn, Hp. cbn. rewrite Hc. cbn. rewrite Hpm. cbn. rewrite Hvs. cbn.
  by rewrite reset_visits_eq.
Qed.


End ConstructionProperties.

(** * The properties on concrete targets *)

Import Demo.

(** The constructor on [cfg_two_visits]. *)
Lemma two_visits_target_constructed :
  @Target_init demo cfg_two_visits = Ok two_visits_target.
Proof. vm_compute. reflexivity. Qed.

(** A configuration without a ['visit'] entry gives one visit;
    [done_visiting] is false before the first [get_visit()] and true after
    it. *)
Lemma default_visit_scenario :
  ∃ t, @Target_init demo cfg_M42 = Ok t ∧
       length (visit t) = 1%nat ∧
       done_visiting t = false ∧
       (get_visit t).1 = Ok 0%nat ∧
       done_visiting (get_visit t).2 = true.
Proof. eexists. split; [vm_compute; reflexivity|]. repeat split. Qed.

(** Two visits: after a reset [visit_num] is 1, and the next [get_visit()]
    yields visit 0. *)
Lemma reset_visits_leaves_last_visit_num_witness :
  visit two_visits_target ≠ [] ∧
  (visit_num (@reset_visits demo two_visits_target) =
     (length (visit two_visits_target) - 1)%nat ∧
   ((2 ≤ length (visit two_visits_target))%nat →
    visit_num (@reset_visits demo two_visits_target) ≠ 0%nat) ∧
   (get_visit (@reset_visits demo two_visits_target)).1 = Ok 0%nat ∧
   visit_num (get_visit (@reset_visits demo two_visits_target)).2 = 0%nat).
Proof.
  split; [discriminate|].
  apply (@reset_visits_leaves_last_visit_num demo two_visits_target).
  discriminate.
Defined.

Lemma reset_visits_idempotent_witness :
  visit two_visits_target ≠ [] ∧
  sequencer (@reset_visits demo (@reset_visits demo two_visits_target)) =
    sequencer (@reset_visits demo two_visits_target) ∧
  (get_visit (@reset_visits demo (@reset_visits demo two_visits_target))).1 =
    Ok 0%nat.
Proof.
  split; [discriminate|].
  destruct (@reset_visits_idempotent demo two_visits_target)
    as (Hseq & _ & _ & _ & _ & Hget & _); [discriminate|].
  split; [exact Hseq|exact Hget].
Defined.

(** Two visits, each run to completion: visit 0 and then visit 1 are
    fetched, and [done_visiting] reads true from the second fetch on. *)
Lemma visits_in_specification_order_witness :
  (∀ o, complete (finish o) = true) ∧
  visit two_visits_target ≠ [] ∧
  (observe finish 2 (@reset_visits demo two_visits_target)).1 =
    [(Ok 0%nat, false); (Ok 1%nat, true)].
Proof.
  split; [reflexivity|]. split; [discriminate|].
  destruct (@visits_in_specification_order demo finish two_visits_target)
    as [Hobs _]; [reflexivity|discriminate|].
  exact Hobs.
Defined.

(** The scenario of two visits, the first of two exposures and the second
    of one: after both have been fetched and run to completion, a third
    [get_visit()] raises [StopIteration]. *)
Lemma get_visit_after_exhaustion_witness :
  @reachable demo (observe finish 2 two_visits_target).2 ∧
  done_visiting (observe finish 2 two_visits_target).2 = true ∧
  (∃ o, last (visit (observe finish 2 two_visits_target).2) = Some o ∧
        complete o = true) ∧
  get_visit (observe finish 2 two_visits_target).2 =
    (Raise StopIteration, (observe finish 2 two_visits_target).2).
Proof.
  assert (@reachable demo (observe finish 2 two_visits_target).2) as Hreach.
  { exists cfg_two_visits, two_visits_target.
    split; [exact two_visits_target_constructed|apply observe_steps]. }
  assert (∃ o, last (visit (observe finish 2 two_visits_target).2) = Some o ∧
               complete o = true) as Hlast.
  { eexists. split; reflexivity. }
  split; [exact Hreach|]. split; [reflexivity|]. split; [exact Hlast|].
  apply (@get_visit_after_exhaustion demo); [exact Hreach|reflexivity|exact Hlast].
Defined.


(** The last image is the reference image itself: nothing is computed. *)
Lemma get_image_offset_no_computation_witness :
  (@reference_image demo referenced_target).1 = Some ref_image ∧
  last_image (exposure_of ref_image) = Ok ref_image ∧
  @get_image_offset demo (exposure_of ref_image) referenced_target =
    (Ok (_offset_info referenced_target), referenced_target).
Proof.
  split; [reflexivity|]. split; [reflexivity|].
  destruct (@get_image_offset_no_computation demo (exposure_of ref_image)
              referenced_target) as [_ Hsame].
  destruct (Hsame ref_image ref_image eq_refl eq_refl eq_refl) as [Hres _].
  exact Hres.
Defined.

(** The last image was not plate-solved and its file cannot be read: both
    tiers fail and the offset recorded before is returned. *)
Lemma get_image_offset_recoverable_witness :
  (@reference_image demo referenced_target).1 = Some ref_image ∧
  last_image (exposure_of unreadable_image) = Ok unreadable_image ∧
  (∀ e, @plate_solve demo ref_image unreadable_image = Raise e →
        e = AssertionError) ∧
  @phase_translation demo ref_image (file_name ref_image)
    (file_name unreadable_image) = Raise PanError ∧
  @get_image_offset demo (exposure_of unreadable_image) referenced_target =
    (Ok (_offset_info referenced_target), referenced_target).
Proof.
  assert (∀ e, @plate_solve demo ref_image unreadable_image = Raise e →
               e = AssertionError) as Hassert.
  { intros e He. vm_compute in He. congruence. }
  split; [reflexivity|]. split; [reflexivity|]. split; [exact Hassert|].
  split; [reflexivity|].
  destruct (@get_image_offset_recoverable demo (exposure_of unreadable_image)
              referenced_target ref_image unreadable_image
              eq_refl eq_refl Hassert) as [_ Hboth].
  destruct (Hboth AssertionError PanError eq_refl eq_refl) as [Hres _].
  exact Hres.
Defined.

(** C1 fails as stated: the plate-solve entry of the last image is not a
    dictionary, tier 1 raises [TypeError], and the exception leaves
    [get_image_offset]. *)
Lemma get_image_offset_raises_counterexample :
  _reference_image referenced_target = Some ref_image ∧
  @plate_solve demo ref_image malformed_image = Raise TypeError ∧
  @get_image_offset demo (exposure_of malformed_image) referenced_target =
    (Raise TypeError, referenced_target) ∧
  ¬ ∃ off t',
      @get_image_offset demo (exposure_of malformed_image) referenced_target =
        (Ok off, t').
Proof.
  assert (@get_image_offset demo (exposure_of malformed_image)
            referenced_target = (Raise TypeError, referenced_target)) as Hraise.
  { vm_compute. reflexivity. }
  split; [reflexivity|]. split; [reflexivity|]. split; [exact Hraise|].
  intros (off & t' & Hok). rewrite Hraise in Hok. discriminate.
Qed.



Lemma Target_init_rejects_witness :
  (cfg_no_name !! "name"%string = None ∨
   cfg_no_name !! "position"%string = None ∨
   (∃ v, cfg_no_name !! "name"%string = Some v ∧ is_str v = false)) ∧
  @Target_init demo cfg_no_name = Raise AssertionError.
Proof.
  assert (cfg_no_name !! "name"%string = None) as Hname by reflexivity.
  split; [left; exact Hname|].
  apply (@Target_init_rejects demo cfg_no_name). left. exact Hname.
Defined.

(** C4 fails as stated: without a ['name'] the constructor raises, but what
    it raises is not a [ConfigurationError]. *)
Lemma Target_init_rejects_counterexample :
  cfg_no_name !! "name"%string = None ∧
  @Target_init demo cfg_no_name = Raise AssertionError ∧
  @Target_init demo cfg_no_name ≠ Raise ConfigurationError.
Proof.
  split; [reflexivity|]. split; [vm_compute; reflexivity|].
  vm_compute. discriminate.
Qed.


(** * Further properties of [target.py] *)

Section SequencerInvariants.
Context {collab : Collaborators}.

Lemma visit_num_current_step t t' :
  step t t' →
  (∀ v, current_visit t = Some v → _visit_num t = v) →
  ∀ v, current_visit t' = Some v → _visit_num t' = v.
Proof.
  intros Hstep Hinv. destruct Hstep as [t|t|t|e t|l t Hl].
  - destruct (wants_next t) eqn:Hw.
    + destruct (visit t !! visits t) as [o|] eqn:Hv.
      * rewrite (get_visit_advance t o Hw Hv). cbn. by intros v [= <-].
      * by rewrite (get_visit_exhausted t Hw Hv).
    + unfold wants_next in Hw.
      destruct (current_visit t) as [v|] eqn:Hc; [|done].
      rewrite (get_visit_stay t v Hc Hw). cbn. by rewrite Hc.
  - by rewrite reset_visits_eq.
  - by rewrite reference_image_state.
  - destruct (get_image_offset_state e t) as [off ->].
    by rewrite reference_image_state.
  - done.
Qed.

Lemma visit_num_current_reachable t v :
  reachable t → current_visit t = Some v → _visit_num t = v.
Proof.
  intros (cfg & t0 & Hinit & Hsteps).
  assert (∀ v, current_visit t0 = Some v → _visit_num t0 = v) as H0.
  { apply Target_init_Ok in Hinit
      as (nm & c & pm & vs & _ & _ & _ & _ & _ & ->). done. }
  clear Hinit. revert v.
  induction Hsteps as [|t1 t2 t3 Hstep _ IH]; [done|].
  apply IH. by eapply visit_num_current_step.
Qed.

(** X1: in every state that a constructed target can reach,
    [done_visiting] is true exactly when the current visit is the last
    one; and a current visit is always one of the visits, with [visit_num]
    its index. *)
Theorem done_visiting_iff_current_is_last t :
  reachable t →
  (done_visiting t = true ↔
     ∃ v, current_visit t = Some v ∧ S v = length (visit t)) ∧
  (∀ v, current_visit t = Some v →
     is_Some (visit t !! v) ∧ visit_num t = v).
Proof.
  intros Hreach. pose proof (sequencer_inv_reachable t Hreach) as Hinv.
  unfold sequencer_inv, done_visiting in *. split.
  - destruct (current_visit t) as [v|].
    + destruct Hinv as (_ & _ & ->). rewrite bool_decide_eq_true. split.
      * intros Hlast. by exists v.
      * by intros (v' & [= <-] & Hlast).
    + destruct Hinv as [_ ->]. split; [done|]. by intros (v & [=] & _).
  - intros v Hc. split.
    + rewrite Hc in Hinv. apply lookup_lt_is_Some. tauto.
    + by apply visit_num_current_reachable.
Qed.

(** X2: on a reachable state [get_visit()] either returns a visit, which
    is then the current visit and one of the visits (the list of visits is
    untouched), or raises [StopIteration], leaving the target exactly as it
    was; with at least one visit the latter happens only when
    [done_visiting] is true. *)
Theorem get_visit_outcome t :
  reachable t →
  match get_visit t with
  | (Ok v, t') =>
      current_visit t' = Some v ∧ is_Some (visit t' !! v) ∧
      visit t' = visit t
  | (Raise e, t') =>
      e = StopIteration ∧ t' = t ∧
      (visit t ≠ [] → done_visiting t = true)
  end.
Proof.
  intros Hreach. pose proof (sequencer_inv_reachable t Hreach) as Hinv.
  destruct (wants_next t) eqn:Hw.
  - destruct (visit t !! visits t) as [o|] eqn:Hv.
    + rewrite (get_visit_advance t o Hw Hv). cbn. by rewrite Hv.
    + rewrite (get_visit_exhausted t Hw Hv).
      split; [done|]. split; [done|]. intros Hne.
      apply lookup_ge_None in Hv.
      unfold sequencer_inv, done_visiting in *.
      destruct (current_visit t) as [v|].
      * destruct Hinv as (Hg & Hlt & ->). apply bool_decide_eq_true. lia.
      * destruct Hinv as [Hg _]. rewrite Hg in Hv.
        destruct (visit t); [done|cbn in Hv; lia].
  - unfold wants_next in Hw.
    destruct (current_visit t) as [v|] eqn:Hc; [|done].
    rewrite (get_visit_stay t v Hc Hw).
    split; [done|]. split; [|done].
    unfold sequencer_inv in Hinv. rewrite Hc in Hinv.
    apply lookup_lt_is_Some. tauto.
Qed.

(** X3: while the visit that [get_visit()] returned is not complete, a
    further [get_visit()] returns the same visit and changes nothing. *)
Theorem get_visit_stable t v t' :
  get_visit t = (Ok v, t') →
  visit_complete t' v = false →
  get_visit t' = (Ok v, t').
Proof.
  intros Hget Hinc. apply get_visit_stay; [|done].
  destruct (wants_next t) eqn:Hw.
  - destruct (visit t !! visits t) as [o|] eqn:Hv.
    + rewrite (get_visit_advance t o Hw Hv) in Hget. by simplify_eq.
    + rewrite (get_visit_exhausted t Hw Hv) in Hget. done.
  - unfold wants_next in Hw.
    destruct (current_visit t) as [v0|] eqn:Hc; [|done].
    rewrite (get_visit_stay t v0 Hc Hw) in Hget. by simplify_eq.
Qed.

(** X4: [reset_visits()] calls [reset_exposures()] once on every visit,
    keeps their number and order, and leaves the reference image and the
    offset information in place. *)
Theorem reset_visits_keeps_tracking t :
  visit (reset_visits t) = reset_exposures <$> visit t ∧
  length (visit (reset_visits t)) = length (visit t) ∧
  _reference_image (reset_visits t) = _reference_image t ∧
  _offset_info (reset_visits t) = _offset_info t ∧
  name (reset_visits t) = name t ∧ coord (reset_visits t) = coord t.
Proof.
  rewrite reset_visits_eq. cbn. by rewrite length_fmap.
Qed.

End SequencerInvariants.

Section ConstructionFurther.
Context {collab : Collaborators}.

(** X5: a constructed target has one visit for each entry of ['visit'],
    in the order of the entries, and one visit made from [{}] when there
    is no ['visit'] entry; each has been built by [Observation] and reset
    once.  The sequencer is at its start, there is no reference image and
    the offset information is empty. *)
Theorem Target_init_visits (target_config : target_config) t :
  Target_init target_config = Ok t →
  visit t =
    (λ od, reset_exposures (new_observation od)) <$>
      match target_config !! "visit"%string with
      | Some (CList l) => l
      | _ => [∅]
      end ∧
  sequencer t = (0%nat, None, false, 0%nat) ∧
  _reference_image t = None ∧ _offset_info t = ∅.
Proof.
  intros (nm & c & pm & vs & _ & _ & _ & _ & Hvs & ->)%Target_init_Ok.
  split; [|done]. cbn. unfold make_visits, dict_get in Hvs.
  destruct (target_config !! "visit"%string) as [[| |l]|]; cbn in Hvs;
    simplify_eq; by rewrite <- ?list_fmap_compose.
Qed.


(** X7: when the name does not resolve and ['position'] does not parse
    either, the constructor raises the exception of the parser, not the
    one of the resolver. *)
Theorem Target_init_unparseable_position
    (target_config : target_config) nm position e1 e2 :
  target_config !! "name"%string = Some (CStr nm) →
  target_config !! "position"%string = Some position →
  from_name nm = Raise e1 →
  sky_coord position (dict_get target_config "frame" (CStr "icrs"))
    = Raise e2 →
  Target_init target_config = Raise e2.
Proof.
  intros Hn Hp Hname Hparse.
  unfold Target_init, py_assert, dict_item. rewrite Hn, Hp. cbn.
  unfold resolve_coord, try_except, dict_item. rewrite Hname. cbn.
  rewrite Hp. cbn. by rewrite Hparse.
Qed.


End ConstructionFurther.

Section ImageOffsetCases.
Context {collab : Collaborators}.

Lemma get_image_offset_tier1_ok exposure t ref last off :
  (reference_image t).1 = Some ref →
  last_image exposure = Ok last →
  file_name ref ≠ file_name last →
  plate_solve ref last = Ok off →
  get_image_offset exposure t =
    (Ok off, set_offset_info off (reference_image t).2).
Proof.
  intros Href Hlast Hdiff Hsolve. unfold get_image_offset.
  destruct (reference_image t) as [r t1]. cbn in Href |- *. subst r.
  by rewrite Hlast, decide_False, Hsolve.
Qed.

Lemma get_image_offset_no_last_image exposure t ref :
  (reference_image t).1 = Some ref →
  images exposure = [] →
  get_image_offset exposure t = (Raise IndexError, (reference_image t).2).
Proof.
  intros Href Hnil.
  assert (last_image exposure = Raise IndexError) as Hlast.
  { unfold last_image, od_keys. by rewrite Hnil. }
  unfold get_image_offset.
  destruct (reference_image t) as [r t1]. cbn in Href |- *. subst r.
  by rewrite Hlast.
Qed.

Lemma get_image_offset_first exposure t v k img :
  _reference_image t = None →
  visit t !! 0%nat = Some v →
  exposures v !! 0%nat = Some exposure →
  exposure_bool exposure = true →
  images exposure = [(k, img)] →
  get_image_offset exposure t =
    (Ok (_offset_info t), set_reference_image (Some img) t).
Proof.
  intros Hr Hv He Hb Hi.
  assert (reference_image t = (Some img, set_reference_image (Some img) t))
    as Href.
  { unfold reference_image.
    rewrite Hr, reference_image_try_spec, Hv, He, Hb, Hi. done. }
  assert (last_image exposure = Ok img) as Hlast.
  { unfold last_image, od_keys, od_item. rewrite Hi. cbn.
    by rewrite decide_True. }
  unfold get_image_offset. rewrite Href, Hlast. by rewrite decide_True.
Qed.

End ImageOffsetCases.

Section ImageOffsetFurther.
Context {collab : Collaborators}.

(** X9: when the files differ and tier 1 succeeds, its result is stored
    in [offset_info] and returned, and tier 2 is not consulted: the outcome
    is the same whatever the routines that read and correlate pixels
    are. *)
Theorem get_image_offset_plate_solved exposure t ref last off :
  (reference_image t).1 = Some ref →
  last_image exposure = Ok last →
  file_name ref ≠ file_name last →
  plate_solve ref last = Ok off →
  get_image_offset exposure t =
    (Ok off, set_offset_info off (reference_image t).2) ∧
  ∀ rd mo,
    @get_image_offset (with_offset_routines collab solve_offset rd mo)
      exposure t =
    (Ok off, set_offset_info off (reference_image t).2).
Proof.
  intros Href Hlast Hdiff Hsolve. split.
  - by apply (get_image_offset_tier1_ok exposure t ref last).
  - intros rd mo.
    by apply (@get_image_offset_tier1_ok
                (with_offset_routines collab solve_offset rd mo)
                exposure t ref last).
Qed.

(** X10: when tier 1 fails with [AssertionError] and tier 2 succeeds, the
    result of tier 2 is stored in [offset_info] and returned. *)
Theorem get_image_offset_phase_translated exposure t ref last off :
  (reference_image t).1 = Some ref →
  last_image exposure = Ok last →
  file_name ref ≠ file_name last →
  plate_solve ref last = Raise AssertionError →
  phase_translation ref (file_name ref) (file_name last) = Ok off →
  get_image_offset exposure t =
    (Ok off, set_offset_info off (reference_image t).2) ∧
  _offset_info (get_image_offset exposure t).2 = off.
Proof.
  intros Href Hlast Hdiff Hsolve Hphase.
  unfold get_image_offset.
  destruct (reference_image t) as [r t1]. cbn in Href |- *. subst r.
  rewrite Hlast, decide_False, Hsolve by done. cbn. by rewrite Hphase.
Qed.

(** X11: a failure of tier 1 that is not an [AssertionError] leaves
    [get_image_offset] as that exception; [offset_info] keeps its value and
    tier 2 is not consulted. *)
Theorem get_image_offset_tier1_error exposure t ref last e :
  (reference_image t).1 = Some ref →
  last_image exposure = Ok last →
  file_name ref ≠ file_name last →
  plate_solve ref last = Raise e →
  e ≠ AssertionError →
  get_image_offset exposure t = (Raise e, (reference_image t).2) ∧
  _offset_info (get_image_offset exposure t).2 = _offset_info t ∧
  ∀ rd mo,
    @get_image_offset (with_offset_routines collab solve_offset rd mo)
      exposure t = (Raise e, (reference_image t).2).
Proof.
  intros Href Hlast Hdiff Hsolve He.
  pose proof (get_image_offset_propagates exposure t ref last e
                Href Hlast Hdiff Hsolve He) as Hraise.
  split; [done|]. split.
  - rewrite Hraise. apply reference_image_offset_info.
  - intros rd mo.
    apply (@get_image_offset_propagates
             (with_offset_routines collab solve_offset rd mo)
             exposure t ref last e); done.
Qed.

(** X12: with a reference image, an exposure that holds no image makes
    [get_image_offset] raise [IndexError]; [offset_info] keeps its value
    and no offset routine is consulted. *)
Theorem get_image_offset_empty_exposure exposure t ref :
  (reference_image t).1 = Some ref →
  images exposure = [] →
  get_image_offset exposure t = (Raise IndexError, (reference_image t).2) ∧
  _offset_info (get_image_offset exposure t).2 = _offset_info t ∧
  ∀ so rd mo,
    @get_image_offset (with_offset_routines collab so rd mo) exposure t =
    (Raise IndexError, (reference_image t).2).
Proof.
  intros Href Hnil.
  pose proof (get_image_offset_no_last_image exposure t ref Href Hnil)
    as Hraise.
  split; [done|]. split.
  - rewrite Hraise. apply reference_image_offset_info.
  - intros so rd mo.
    by apply (@get_image_offset_no_last_image
                (with_offset_routines collab so rd mo) exposure t ref).
Qed.

(** X13: whatever its outcome, [get_image_offset] does not touch the
    visits or the sequencer, keeps a reference image that is set, and when
    it returns, what it returns is the [offset_info] it leaves. *)
Theorem get_image_offset_frame exposure t :
  visit (get_image_offset exposure t).2 = visit t ∧
  sequencer (get_image_offset exposure t).2 = sequencer t ∧
  (∀ r, _reference_image t = Some r →
        _reference_image (get_image_offset exposure t).2 = Some r) ∧
  (∀ off, (get_image_offset exposure t).1 = Ok off →
          _offset_info (get_image_offset exposure t).2 = off).
Proof.
  destruct (get_image_offset_state exposure t) as [off Hstate].
  split; [|split; [|split]].
  - by rewrite Hstate, reference_image_state.
  - by rewrite Hstate, reference_image_state.
  - intros r Hr. by rewrite Hstate, (reference_image_set t r Hr).
  - clear off Hstate. intros off. unfold get_image_offset.
    destruct (reference_image t) as [r t1].
    repeat case_match; cbn; intros; by simplify_eq.
Qed.

(** X14: the first call, on the first exposure itself: when no reference
    image is set and the exposure is the first one of the first visit,
    holding one image, that image becomes the reference image and
    [offset_info] is returned as it is, nothing being computed. *)
Theorem get_image_offset_first_exposure exposure t v k img :
  _reference_image t = None →
  visit t !! 0%nat = Some v →
  exposures v !! 0%nat = Some exposure →
  exposure_bool exposure = true →
  images exposure = [(k, img)] →
  get_image_offset exposure t =
    (Ok (_offset_info t), set_reference_image (Some img) t) ∧
  ∀ so rd mo,
    @get_image_offset (with_offset_routines collab so rd mo) exposure t =
    (Ok (_offset_info t), set_reference_image (Some img) t).
Proof.
  intros Hr Hv He Hb Hi. split.
  - by apply (get_image_offset_first exposure t v k img).
  - intros so rd mo.
    by apply (@get_image_offset_first
                (with_offset_routines collab so rd mo) exposure t v k img).
Qed.

End ImageOffsetFurther.

(** X15: with durations in whole seconds, the estimate is the sum of the
    estimates of the visits plus the overhead times the number of
    visits. *)
Theorem estimate_visit_duration_seconds
    (estimate_duration : Observation → Z) (overhead : Z) t :
  (estimate_visit_duration estimate_duration overhead t).1 =
    foldr Z.add 0 (estimate_duration <$> visit t) +
    overhead * Z.of_nat (length (visit t)).
Proof.
  unfold estimate_visit_duration. cbn [fst].
  induction (visit t) as [|obs l IH].
  - unfold sum_durations. cbn. lia.
  - rewrite (sum_durations_app estimate_duration overhead [obs] l), IH.
    unfold sum_durations. cbn. lia.
Qed.

(** ** The further properties on concrete targets *)

Lemma two_visits_target_reachable : @reachable demo two_visits_target.
Proof.
  exists cfg_two_visits, two_visits_target.
  split; [exact two_visits_target_constructed|apply rtc_refl].
Qed.

Lemma two_visits_observed_reachable :
  @reachable demo (observe finish 2 two_visits_target).2.
Proof.
  exists cfg_two_visits, two_visits_target.
  split; [exact two_visits_target_constructed|apply observe_steps].
Qed.

(** After both visits have been fetched and run, the second visit is
    current and [done_visiting] is true. *)
Lemma done_visiting_iff_current_is_last_witness :
  @reachable demo (observe finish 2 two_visits_target).2 ∧
  done_visiting (observe finish 2 two_visits_target).2 = true ∧
  current_visit (observe finish 2 two_visits_target).2 = Some 1%nat ∧
  visit_num (observe finish 2 two_visits_target).2 = 1%nat.
Proof.
  split; [exact two_visits_observed_reachable|].
  destruct (@done_visiting_iff_current_is_last demo _
              two_visits_observed_reachable) as [Hdone Hcur].
  split; [|split; [reflexivity|]].
  - apply Hdone. exists 1%nat. split; reflexivity.
  - exact (proj2 (Hcur 1%nat eq_refl)).
Defined.

Lemma get_visit_outcome_witness :
  @reachable demo two_visits_target ∧
  (get_visit two_visits_target).1 = Ok 0%nat ∧
  current_visit (get_visit two_visits_target).2 = Some 0%nat.
Proof.
  split; [exact two_visits_target_reachable|].
  pose proof (@get_visit_outcome demo two_visits_target
                two_visits_target_reachable) as Hout.
  split; [reflexivity|].
  change (get_visit two_visits_target)
    with (Ok 0%nat, (get_visit two_visits_target).2) in Hout.
  exact (proj1 Hout).
Defined.

Lemma get_visit_stable_witness :
  get_visit two_visits_target = (Ok 0%nat, (get_visit two_visits_target).2) ∧
  visit_complete (get_visit two_visits_target).2 0 = false ∧
  get_visit (get_visit two_visits_target).2 =
    (Ok 0%nat, (get_visit two_visits_target).2).
Proof.
  split; [reflexivity|]. split; [reflexivity|].
  apply (get_visit_stable two_visits_target); reflexivity.
Defined.

Lemma Target_init_visits_witness :
  @Target_init demo cfg_two_visits = Ok two_visits_target ∧
  length (visit two_visits_target) = 2%nat ∧
  sequencer two_visits_target = (0%nat, None, false, 0%nat).
Proof.
  split; [exact two_visits_target_constructed|].
  destruct (@Target_init_visits demo cfg_two_visits two_visits_target
              two_visits_target_constructed) as (Hvisit & Hseq & _).
  split; [rewrite Hvisit; reflexivity|exact Hseq].
Defined.


Lemma Target_init_unparseable_position_witness :
  @from_name demo "NonexistentObject123" = Raise NameResolveError ∧
  @Target_init demo Examples.cfg_nowhere = Raise ValueError.
Proof.
  split; [reflexivity|].
  apply (@Target_init_unparseable_position demo Examples.cfg_nowhere
           "NonexistentObject123" (CStr "somewhere") NameResolveError
           ValueError); reflexivity.
Defined.


Lemma get_image_offset_plate_solved_witness :
  @plate_solve demo ref_image Examples.solved_image =
    Ok {[ "delta_ra"%string := 10 ]} ∧
  (@get_image_offset demo (exposure_of Examples.solved_image)
     referenced_target).1 = Ok {[ "delta_ra"%string := 10 ]}.
Proof.
  split; [reflexivity|].
  destruct (@get_image_offset_plate_solved demo
              (exposure_of Examples.solved_image) referenced_target
              ref_image Examples.solved_image {[ "delta_ra"%string := 10 ]}
              eq_refl eq_refl) as [Hres _].
  - vm_compute. discriminate.
  - reflexivity.
  - rewrite Hres. reflexivity.
Defined.

Lemma get_image_offset_phase_translated_witness :
  @plate_solve demo ref_image Examples.unsolved_image = Raise AssertionError ∧
  (@get_image_offset demo (exposure_of Examples.unsolved_image)
     referenced_target).1 = Ok {[ "delta_x"%string := 1 ]}.
Proof.
  split; [reflexivity|].
  destruct (@get_image_offset_phase_translated demo
              (exposure_of Examples.unsolved_image) referenced_target
              ref_image Examples.unsolved_image {[ "delta_x"%string := 1 ]}
              eq_refl eq_refl) as [Hres _].
  - vm_compute. discriminate.
  - reflexivity.
  - reflexivity.
  - rewrite Hres. reflexivity.
Defined.

Lemma get_image_offset_tier1_error_witness :
  @plate_solve demo ref_image malformed_image = Raise TypeError ∧
  (@get_image_offset demo (exposure_of malformed_image)
     referenced_target).1 = Raise TypeError ∧
  _offset_info
    (@get_image_offset demo (exposure_of malformed_image)
       referenced_target).2 = _offset_info referenced_target.
Proof.
  split; [reflexivity|].
  destruct (@get_image_offset_tier1_error demo
              (exposure_of malformed_image) referenced_target
              ref_image malformed_image TypeError eq_refl eq_refl)
    as (Hres & Hoff & _).
  - vm_compute. discriminate.
  - reflexivity.
  - discriminate.
  - split; [rewrite Hres; reflexivity|exact Hoff].
Defined.

Lemma get_image_offset_empty_exposure_witness :
  (@reference_image demo referenced_target).1 = Some ref_image ∧
  (@get_image_offset demo (mkExposure []) referenced_target).1 =
    Raise IndexError.
Proof.
  split; [reflexivity|].
  destruct (@get_image_offset_empty_exposure demo (mkExposure [])
              referenced_target ref_image eq_refl eq_refl) as [Hres _].
  rewrite Hres. reflexivity.
Defined.

Lemma get_image_offset_first_exposure_witness :
  _reference_image tracked_target = None ∧
  @get_image_offset demo (exposure_of ref_image) tracked_target =
    (Ok (_offset_info tracked_target), referenced_target).
Proof.
  split; [reflexivity|].
  destruct (@get_image_offset_first_exposure demo (exposure_of ref_image)
              tracked_target
              (mkObservation [exposure_of ref_image] false)
              "cam00" ref_image eq_refl eq_refl eq_refl eq_refl eq_refl)
    as [Hres _].
  exact Hres.
Defined.

(** * Properties of the FLI camera *)

Module FLIFacts.
Import FLI.

Section Facts.
Context {D : Type} {driver : Driver D}.
#[local] Existing Instances M_ret M_bind.

(** Case analysis on the answer of the driver to the next call. *)
Ltac answer :=
  match goal with
  | |- context [match ?t with pair _ _ => _ end] =>
      lazymatch type of t with
      | (outcome _ * D)%type =>
          let r := fresh "r" in let d := fresh "d" in let e := fresh "e" in
          destruct t as [[r|e] d]
      end
  end.

(** Closes a case of [_start_exposure] that ends after [k] calls. *)
Ltac finish_with k :=
  exists k; cbn; split; [lia|]; split; [by rewrite <- ?app_assoc|];
  split; [done|]; split;
  [ intros Hin;
    first [ reflexivity
          | exfalso;
            repeat (apply elem_of_cons in Hin as [Hin|Hin]; [discriminate|]);
            by apply elem_of_nil in Hin ]
  | first [ lia | done ] ].


Lemma grabbed_length n h width d rows d' :
  grabbed n h width d = (rows, None, d') → length rows = n.
Proof.
  revert d rows. induction n as [|n IH]; intros d rows; cbn.
  - by intros [= <- <-].
  - destruct (FLIGrabRow h width d) as [[row|e] d1]; [|done].
    destruct (grabbed n h width d1) as [[rows' oe] d''] eqn:Hg.
    intros [= <- -> <-]. cbn. f_equal. by eapply IH.
Qed.

Lemma grabbed_length_failed n h width d rows e d' :
  grabbed n h width d = (rows, Some e, d') → (length rows < n)%nat.
Proof.
  revert d rows. induction n as [|n IH]; intros d rows; cbn; [done|].
  destruct (FLIGrabRow h width d) as [[row|e1] d1].
  - destruct (grabbed n h width d1) as [[rows' oe] d''] eqn:Hg.
    intros [= <- -> <-]. cbn. apply IH in Hg. lia.
  - intros [= <- <- <-]. cbn. lia.
Qed.


(** The loop of [_readout] against what the device delivers. *)
Lemma grab_rows_grabbed n : ∀ i image_data s h width rows oe d',
  _handle (cam s) = Some h →
  length image_data = (i + n)%nat →
  grabbed n h width (device s) = (rows, oe, d') →
  Forall (λ row, length row = Z.to_nat width) rows →
  grab_rows n i width image_data s =
    (match oe with
     | None => Done (take i image_data ++ (fmap (M:=list) to_uint16 <$> rows))
     | Some e => Raised e
     end,
     mkState (cam s) d'
       (calls s ++
        replicate (length rows + if oe is Some _ then 1 else 0)%nat
          (CFLIGrabRow h width))).
Proof.
  induction n as [|n IH]; intros i image_data s h width rows oe d' Hh Hlen Hg Hrows.
  - cbn in Hg. simplify_eq. cbn. rewrite !app_nil_r.
    rewrite take_ge by lia. by destruct s.
  - cbn [grab_rows grabbed] in *.
    unfold driver_call, attr, call. unfold mbind, M_bind. rewrite Hh.
    destruct (FLIGrabRow h width (device s)) as [[row|e] d1].
    + destruct (grabbed n h width d1) as [[rows' oe'] d''] eqn:Hg'.
      simplify_eq. apply Forall_cons in Hrows as [Hrow Hrows].
      unfold assign_row. rewrite decide_True by done.
      rewrite (IH (S i) _ _ h width rows' oe d'); try done.
      * cbn. f_equal.
        -- destruct oe; [done|]. f_equal.
           rewrite (take_S_r _ _ (to_uint16 <$> row)).
           ++ rewrite take_insert. case_decide; [lia|].
              by rewrite <- app_assoc.
           ++ apply list_lookup_insert_eq. lia.
        -- f_equal. by rewrite <- app_assoc.
      * rewrite length_insert. lia.
    + simplify_eq. cbn. done.
Qed.

(** X17: when the device delivers all [height] rows, each of [width]
    pixels, [_readout] grabs exactly [height] rows and then writes one
    image, the rows in the order of delivery with their values converted to
    [uint16]; its outcome is the outcome of [write_fits], which is not
    caught, even when it is a [RuntimeError]. *)
Theorem readout_complete filename width height hdr s h rows d' :
  _handle (cam s) = Some h →
  0 ≤ width → 0 ≤ height →
  grabbed (Z.to_nat height) h width (device s) = (rows, None, d') →
  Forall (λ row, length row = Z.to_nat width) rows →
  _readout filename width height hdr s =
    ((write_fits (fmap (M:=list) to_uint16 <$> rows) hdr filename d').1,
     mkState (cam s)
       (write_fits (fmap (M:=list) to_uint16 <$> rows) hdr filename d').2
       (calls s ++ replicate (Z.to_nat height) (CFLIGrabRow h width) ++
        [Cwrite_fits (fmap (M:=list) to_uint16 <$> rows) hdr filename])) ∧
  length rows = Z.to_nat height.
Proof.
  intros Hh Hw Hht Hg Hrows.
  pose proof (grabbed_length _ _ _ _ _ _ Hg) as Hlen.
  split; [|done]. unfold _readout. rewrite decide_False by lia.
  rewrite (grab_rows_grabbed _ 0%nat _ s h width rows None d'); try done.
  - unfold call. cbn. rewrite Hlen, Nat.add_0_r.
    destruct (write_fits _ hdr filename d') as [r d'']. cbn.
    by rewrite <- app_assoc.
  - by rewrite length_replicate.
Qed.

(** X18: when a row cannot be grabbed, the rows before it having been
    delivered, [_readout] stops at that call and writes nothing: a
    [RuntimeError] of the driver becomes a [PanError], any other exception
    leaves [_readout] as it is. *)
Theorem readout_row_failure filename width height hdr s h rows e d' :
  _handle (cam s) = Some h →
  0 ≤ width → 0 ≤ height →
  grabbed (Z.to_nat height) h width (device s) = (rows, Some e, d') →
  Forall (λ row, length row = Z.to_nat width) rows →
  _readout filename width height hdr s =
    (Raised (if decide (e = RuntimeError) then PanError else e),
     mkState (cam s) d'
       (calls s ++ replicate (S (length rows)) (CFLIGrabRow h width))) ∧
  (length rows < Z.to_nat height)%nat.
Proof.
  intros Hh Hw Hht Hg Hrows.
  split; [|by eapply grabbed_length_failed].
  unfold _readout. rewrite decide_False by lia.
  rewrite (grab_rows_grabbed _ 0%nat _ s h width rows (Some e) d'); try done.
  - rewrite Nat.add_1_r. by destruct e.
  - by rewrite length_replicate.
Qed.



(** The shape that [_readout] keeps for [image_data]. *)
Lemma assign_row_shape width row row' :
  assign_row width row = Done row' →
  length row' = width ∧ Forall (λ z, 0 ≤ z < 65536) row'.
Proof.
  assert (∀ z, 0 ≤ to_uint16 z < 65536) as Hrange.
  { intros z. unfold to_uint16. apply Z.mod_pos_bound. lia. }
  unfold assign_row. case_decide as Hlen.
  - intros [= <-]. rewrite length_fmap. split; [done|].
    apply Forall_fmap, Forall_forall. intros z _. apply Hrange.
  - destruct row as [|x [|y row]]; try done.
    intros [= <-]. rewrite length_replicate. split; [done|].
    apply Forall_replicate. apply Hrange.
Qed.

Lemma grab_rows_shape n : ∀ i image_data s h width,
  _handle (cam s) = Some h →
  length image_data = (i + n)%nat →
  Forall (λ row, length row = Z.to_nat width ∧
                 Forall (λ z, 0 ≤ z < 65536) row) image_data →
  cam (grab_rows n i width image_data s).2 = cam s ∧
  ∃ k, (k ≤ n)%nat ∧
    calls (grab_rows n i width image_data s).2 =
      calls s ++ replicate k (CFLIGrabRow h width) ∧
    ∀ image_data',
      (grab_rows n i width image_data s).1 = Done image_data' →
      k = n ∧ length image_data' = (i + n)%nat ∧
      Forall (λ row, length row = Z.to_nat width ∧
                     Forall (λ z, 0 ≤ z < 65536) row) image_data'.
Proof.
  induction n as [|n IH]; intros i image_data s h width Hh Hlen Hshape.
  - cbn. split; [done|]. exists 0%nat. cbn. rewrite app_nil_r.
    split; [done|]. split; [done|]. by intros ? [= <-].
  - cbn [grab_rows].
    unfold driver_call, attr, call. unfold mbind, M_bind. rewrite Hh.
    destruct (FLIGrabRow h width (device s)) as [[row|e] d1].
    + destruct (assign_row (Z.to_nat width) row) as [row'|e] eqn:Hrow.
      * apply assign_row_shape in Hrow.
        edestruct (IH (S i) (<[i:=row']> image_data)
                     (mkState (cam s) d1 (calls s ++ [CFLIGrabRow h width]))
                     h width) as (Hcam & k & Hk & Hcalls & Hdone).
        -- done.
        -- rewrite length_insert. lia.
        -- by apply Forall_insert.
        -- split; [done|]. exists (S k). split; [lia|].
           split; [cbn in Hcalls; by rewrite Hcalls, <- app_assoc|].
           intros img' Himg. apply Hdone in Himg as (-> & Hl & Hs).
           split; [done|]. split; [lia|done].
      * cbn. split; [done|]. exists 1%nat. split; [lia|]. by split.
    + cbn. split; [done|]. exists 1%nat. split; [lia|]. by split.
Qed.

(** X19: whatever the device answers, [_readout] makes at most [height]
    calls of [FLIGrabRow], all for [width] pixels, and after them either
    nothing or one [write_fits], of an image of exactly [height] rows of
    [width] values within the range of [uint16]: no partial image is
    written.  The camera is not changed. *)
Theorem readout_full_image_or_nothing filename width height hdr s h :
  _handle (cam s) = Some h →
  cam (_readout filename width height hdr s).2 = cam s ∧
  ∃ k ws,
    calls (_readout filename width height hdr s).2 =
      calls s ++ replicate k (CFLIGrabRow h width) ++ ws ∧
    (k ≤ Z.to_nat height)%nat ∧
    (ws = [] ∨
     ∃ image_data,
       ws = [Cwrite_fits image_data hdr filename] ∧
       k = Z.to_nat height ∧
       length image_data = Z.to_nat height ∧
       Forall (λ row, length row = Z.to_nat width ∧
                      Forall (λ z, 0 ≤ z < 65536) row) image_data).
Proof.
  intros Hh. unfold _readout. case_decide as Hneg.
  - cbn. split; [done|]. exists 0%nat, []. cbn. rewrite app_nil_r.
    split; [done|]. split; [lia|by left].
  - destruct (grab_rows_shape (Z.to_nat height) 0
                (replicate (Z.to_nat height) (replicate (Z.to_nat width) 0))
                s h width Hh) as (Hcam & k & Hk & Hcalls & Hdone).
    { by rewrite length_replicate. }
    { apply Forall_replicate. rewrite length_replicate. split; [done|].
      apply Forall_replicate. lia. }
    destruct (grab_rows _ _ _ _ s) as [[img|e] s1]; cbn [fst snd] in *.
    + destruct (Hdone img eq_refl) as (-> & Hl & Hs).
      unfold call. destruct (write_fits img hdr filename (device s1)).
      cbn. split; [done|].
      exists (Z.to_nat height), [Cwrite_fits img hdr filename].
      split; [by rewrite Hcalls, <- app_assoc|]. split; [done|].
      right. by exists img.
    + assert (cam s1 = cam s ∧
              ∃ k ws, calls s1 = calls s ++ replicate k (CFLIGrabRow h width) ++ ws
                ∧ (k ≤ Z.to_nat height)%nat ∧ ws = []) as (? & k' & ws & ? & ? & ->).
      { split; [done|]. exists k, []. by rewrite app_nil_r. }
      destruct e; cbn; (split; [done|]); exists k', []; (split; [done|]);
        (split; [done|by left]).
Qed.


(** X21: when [FLIOpen] returns the invalid handle, [connect] raises after
    that one call: [PanError] when the camera has a [_camera_address]
    attribute for the message, [AttributeError] otherwise.  The invalid
    handle stays in [_handle]. *)
Theorem connect_invalid_device s a h d' :
  _address (cam s) = Some a →
  FLIOpen a (device s) = (Done h, d') →
  invalid_device h = true →
  connect s =
    (Raised (if _camera_address (cam s) is Some _ then PanError
             else AttributeError),
     mkState (set_handle (Some h) (cam s)) d' (calls s ++ [CFLIOpen a])).
Proof.
  intros Ha Hopen Hinv.
  unfold connect, attr, call, assign, throw. unfold mbind, M_bind.
  rewrite Ha, Hopen. cbn. rewrite Hinv. cbn.
  by destruct (_camera_address (cam s)).
Qed.

(** X22: when an assignment to [ccd_set_point] returns, the driver has
    been given the set point, a bare number having been taken as degrees
    Celsius, and [ccd_set_point] reads that quantity; when the assignment
    raises, the stored set point is what it was. *)
Theorem ccd_set_point_round_trip set_point s :
  match ccd_set_point_setter set_point s with
  | (Done _, s') =>
      ∃ h q,
        q = match set_point with
            | Quantity q => q
            | Number z => mkQuantity z "deg_C"
            end ∧
        ccd_set_point s' = (Done q, s') ∧
        _handle (cam s) = Some h ∧
        calls s' = calls s ++ [CFLISetTemperature h q]
  | (Raised _, s') => _set_point (cam s') = _set_point (cam s)
  end.
Proof.
  unfold ccd_set_point_setter, ccd_set_point, driver_call, attr, call, assign.
  unfold mbind, M_bind.
  destruct (_handle (cam s)) as [h|] eqn:Hh; [|done].
  answer; [|done]. cbn. by eexists h, _.
Qed.

End Facts.

(** ** On the demonstration device *)


(** Two rows of three pixels: the values 65536 and 65537 of the device are
    written as 0 and 1. *)
Lemma readout_complete_witness :
  grabbed (driver := FLIDemo.demo_driver) 2 7 3 0%nat =
    ([[65536; 65536; 65536]; [65537; 65537; 65537]], None, 2%nat) ∧
  @_readout _ FLIDemo.demo_driver "a.fits" 3 2 ∅
    (FLIDemo.fresh FLIDemo.connected_camera) =
    (Done (),
     mkState FLIDemo.connected_camera 2%nat
       [CFLIGrabRow 7 3; CFLIGrabRow 7 3;
        Cwrite_fits [[0; 0; 0]; [1; 1; 1]] ∅ "a.fits"]).
Proof.
  split; [reflexivity|].
  destruct (@readout_complete _ FLIDemo.demo_driver "a.fits" 3 2 ∅
              (FLIDemo.fresh FLIDemo.connected_camera) 7
              [[65536; 65536; 65536]; [65537; 65537; 65537]] 2%nat
              eq_refl) as [Hres _].
  - lia.
  - lia.
  - reflexivity.
  - repeat constructor.
  - rewrite Hres. reflexivity.
Defined.

(** Three rows asked of the device that delivers two: [PanError], three
    calls and no file. *)
Lemma readout_row_failure_witness :
  grabbed (driver := FLIDemo.demo_driver) 3 7 3 0%nat =
    ([[65536; 65536; 65536]; [65537; 65537; 65537]],
     Some RuntimeError, 2%nat) ∧
  @_readout _ FLIDemo.demo_driver "a.fits" 3 3 ∅
    (FLIDemo.fresh FLIDemo.connected_camera) =
    (Raised PanError,
     mkState FLIDemo.connected_camera 2%nat
       [CFLIGrabRow 7 3; CFLIGrabRow 7 3; CFLIGrabRow 7 3]).
Proof.
  split; [reflexivity|].
  destruct (@readout_row_failure _ FLIDemo.demo_driver "a.fits" 3 3 ∅
              (FLIDemo.fresh FLIDemo.connected_camera) 7
              [[65536; 65536; 65536]; [65537; 65537; 65537]]
              RuntimeError 2%nat eq_refl) as [Hres _].
  - lia.
  - lia.
  - reflexivity.
  - repeat constructor.
  - rewrite Hres. reflexivity.
Defined.

Lemma readout_full_image_or_nothing_witness :
  _handle FLIDemo.connected_camera = Some 7 ∧
  cam (@_readout _ FLIDemo.demo_driver "a.fits" 3 3 ∅
         (FLIDemo.fresh FLIDemo.connected_camera)).2 =
    FLIDemo.connected_camera.
Proof.
  split; [reflexivity|].
  exact (proj1 (@readout_full_image_or_nothing _ FLIDemo.demo_driver
                  "a.fits" 3 3 ∅ (FLIDemo.fresh FLIDemo.connected_camera) 7
                  eq_refl)).
Defined.


(** On another port the handle is invalid; the camera has no
    [_camera_address], and [connect] raises [AttributeError]. *)
Lemma connect_invalid_device_witness :
  FLIOpen (Driver := FLIDemo.demo_driver) "usb1" 0%nat = (Done (-1), 0%nat) ∧
  invalid_device (Driver := FLIDemo.demo_driver) (-1) = true ∧
  @connect _ FLIDemo.demo_driver (FLIDemo.fresh (FLIDemo.new_camera "usb1")) =
    (Raised AttributeError,
     mkState (set_handle (Some (-1)) (FLIDemo.new_camera "usb1")) 0%nat
       [CFLIOpen "usb1"]).
Proof.
  split; [reflexivity|]. split; [reflexivity|].
  apply (@connect_invalid_device _ FLIDemo.demo_driver
           (FLIDemo.fresh (FLIDemo.new_camera "usb1")) "usb1" (-1) 0%nat);
    reflexivity.
Defined.

Lemma ccd_set_point_round_trip_witness :
  ccd_set_point
    (@ccd_set_point_setter _ FLIDemo.demo_driver (Number (-10))
       (FLIDemo.fresh FLIDemo.connected_camera)).2 =
    (Done (mkQuantity (-10) "deg_C"),
     (@ccd_set_point_setter _ FLIDemo.demo_driver (Number (-10))
        (FLIDemo.fresh FLIDemo.connected_camera)).2).
Proof.
  pose proof (@ccd_set_point_round_trip _ FLIDemo.demo_driver (Number (-10))
                (FLIDemo.fresh FLIDemo.connected_camera)) as Hout.
  change (@ccd_set_point_setter _ FLIDemo.demo_driver (Number (-10))
            (FLIDemo.fresh FLIDemo.connected_camera))
    with (Done (),
          (@ccd_set_point_setter _ FLIDemo.demo_driver (Number (-10))
             (FLIDemo.fresh FLIDemo.connected_camera)).2) in Hout at 1.
  destruct Hout as (h & q & -> & Hget & _). exact Hget.
Defined.

End FLIFacts.
